(** * rudp-vs-tcp: the NACK-based reliable datagram transfer (rudp.py) and the
    best-effort UDP mirror (udp.py), as a shallow embedding.

    Sockets are modelled by what the code does with them: the datagrams it
    hands to [sendto], in order, and the sequence of outcomes of its
    [recvfrom] calls (a datagram, or a timeout).  Files are a finite map from
    path to contents.  Python exceptions are values of [exn].  Time is not
    modelled beyond the order of these events: a timeout window is one
    [RxTimeout]. *)

From Stdlib Require Import ZArith List Lia Bool QArith.
From Stdlib.Strings Require Import String Ascii Byte.
From stdpp Require Import base option list gmap strings pretty.

Local Open Scope Z_scope.

(** ** Bytes and Python exceptions *)

Abbreviation bytes := (list byte).

#[global] Instance byte_eq_dec : EqDecision byte := Byte.byte_eq_dec.

Inductive exn : Set :=
  | FileNotFoundError
  | ZeroDivisionError
  | struct_error
  | KeyError
  | ValueError
  | OverflowError
  | UnicodeDecodeError
  | socket_timeout.

#[global] Instance exn_eq_dec : EqDecision exn.
Proof. solve_decision. Defined.

Inductive result (A : Type) : Type :=
  | Ok (a : A)
  | Raise (e : exn).
Arguments Ok {A} a.
Arguments Raise {A} e.

Definition byte_of_Z (z : Z) : byte :=
  default x00 (Byte.of_N (Z.to_N (z mod 256))).

Definition Z_of_byte (b : byte) : Z := Z.of_N (Byte.to_N b).

(** [len(b)] as a Python int. *)
Definition len {A} (l : list A) : Z := Z.of_nat (length l).

(** Python's slice [data[lo:lo+n]] for [0 <= lo]: clamped, never raises. *)
Definition slice {A} (lo n : Z) (data : list A) : list A :=
  take (Z.to_nat n) (drop (Z.to_nat lo) data).

(** *** struct, network byte order *)

Definition is_u32 (n : Z) : bool := (0 <=? n) && (n <? 2 ^ 32).

(** [struct.pack("!I", n)]; [None] stands for [struct.error]. *)
Definition pack_u32 (n : Z) : option bytes :=
  if is_u32 n
  then Some [byte_of_Z (n / 2 ^ 24); byte_of_Z (n / 2 ^ 16);
             byte_of_Z (n / 2 ^ 8); byte_of_Z n]
  else None.

Definition be32 (b0 b1 b2 b3 : byte) : Z :=
  Z_of_byte b0 * 2 ^ 24 + Z_of_byte b1 * 2 ^ 16 + Z_of_byte b2 * 2 ^ 8
  + Z_of_byte b3.

(** [struct.pack("!II", a, b)]. *)
Definition pack_II (a b : Z) : option bytes :=
  match pack_u32 a, pack_u32 b with
  | Some x, Some y => Some (x ++ y)
  | _, _ => None
  end.

(** [struct.unpack("!II", d)]: [struct.error] unless [d] has 8 bytes. *)
Definition unpack_II (d : bytes) : option (Z * Z) :=
  match d with
  | [a0; a1; a2; a3; b0; b1; b2; b3] => Some (be32 a0 a1 a2 a3, be32 b0 b1 b2 b3)
  | _ => None
  end.

(** [struct.unpack("!III", d)]: [struct.error] unless [d] has 12 bytes. *)
Definition unpack_III (d : bytes) : option (Z * Z * Z) :=
  match d with
  | [a0; a1; a2; a3; b0; b1; b2; b3; c0; c1; c2; c3] =>
      Some (be32 a0 a1 a2 a3, be32 b0 b1 b2 b3, be32 c0 c1 c2 c3)
  | _ => None
  end.

(** The ["256s"] field: the bytes cut to 256 and padded with NUL. *)
Definition pad256 (s : bytes) : bytes :=
  take 256 s ++ replicate (256 - length (take 256 s))%nat x00.

(** [struct.pack("!II256s", a, b, s)]. *)
Definition pack_II256s (a b : Z) (s : bytes) : option bytes :=
  match pack_II a b with
  | Some h => Some (h ++ pad256 s)
  | None => None
  end.

(** [struct.unpack("!II256s", d)]: [struct.error] unless [d] has 264 bytes. *)
Definition unpack_II256s (d : bytes) : option (Z * Z * bytes) :=
  if (length d =? 264)%nat
  then match unpack_II (take 8 d) with
       | Some (a, b) => Some (a, b, drop 8 d)
       | None => None
       end
  else None.

(** *** array.array("i"): signed 32-bit items in host order (little-endian
    hosts: x86-64, AArch64). *)

Definition is_i32 (n : Z) : bool := (- 2 ^ 31 <=? n) && (n <? 2 ^ 31).

Definition le_i32 (b0 b1 b2 b3 : byte) : Z :=
  let u := be32 b3 b2 b1 b0 in
  if u <? 2 ^ 31 then u else u - 2 ^ 32.

Definition i32_bytes (n : Z) : bytes :=
  let u := n mod 2 ^ 32 in
  [byte_of_Z u; byte_of_Z (u / 2 ^ 8); byte_of_Z (u / 2 ^ 16);
   byte_of_Z (u / 2 ^ 24)].

(** [array.array("i", l).tobytes()]; [OverflowError] when an item does not
    fit a signed 32-bit int. *)
Fixpoint array_tobytes (l : list Z) : result bytes :=
  match l with
  | [] => Ok []
  | n :: l' =>
      if is_i32 n
      then match array_tobytes l' with
           | Ok d => Ok (i32_bytes n ++ d)
           | Raise e => Raise e
           end
      else Raise OverflowError
  end.

(** [a = array.array("i"); a.frombytes(d)]; [ValueError] when the length of
    [d] is not a multiple of the item size. *)
Fixpoint array_frombytes (d : bytes) : result (list Z) :=
  match d with
  | [] => Ok []
  | b0 :: b1 :: b2 :: b3 :: d' =>
      match array_frombytes d' with
      | Ok l => Ok (le_i32 b0 b1 b2 b3 :: l)
      | Raise e => Raise e
      end
  | _ => Raise ValueError
  end.

(** [max(l)] of a non-empty list ([default] is never reached by the code,
    which takes [max] only after a length test). *)
Definition max_list_Z (l : list Z) : Z :=
  match l with
  | [] => -1
  | x :: l' => foldr Z.max x l'
  end.

(** [math.ceil(a / b)] for [b <> 0].  Python divides in binary floating
    point; for file sizes below 2^52 the rounded quotient has the same
    ceiling as the exact one, which is what is kept here. *)
Definition ceil_div (a b : Z) : Z := - ((- a) / b).

(** *** str: UTF-8 and NUL stripping

    A Python [str] is kept as its UTF-8 encoding, a Rocq [string] of bytes. *)

Definition in_range (lo hi : Z) (b : byte) : bool :=
  (lo <=? Z_of_byte b) && (Z_of_byte b <=? hi).

Definition is_cont (b : byte) : bool := in_range 128 191 b.

(** Whether [bytes.decode()] (strict UTF-8) succeeds: shortest forms only, no
    surrogates, nothing above U+10FFFF. *)
Fixpoint utf8_valid (d : bytes) : bool :=
  match d with
  | [] => true
  | b0 :: d1 =>
      if in_range 0 127 b0 then utf8_valid d1
      else if in_range 194 223 b0 then
        match d1 with
        | b1 :: d2 => is_cont b1 && utf8_valid d2
        | _ => false
        end
      else if in_range 224 239 b0 then
        match d1 with
        | b1 :: b2 :: d3 =>
            (if in_range 224 224 b0 then in_range 160 191 b1
             else if in_range 237 237 b0 then in_range 128 159 b1
             else is_cont b1)
            && is_cont b2 && utf8_valid d3
        | _ => false
        end
      else if in_range 240 244 b0 then
        match d1 with
        | b1 :: b2 :: b3 :: d4 =>
            (if in_range 240 240 b0 then in_range 144 191 b1
             else if in_range 244 244 b0 then in_range 128 143 b1
             else is_cont b1)
            && is_cont b2 && is_cont b3 && utf8_valid d4
        | _ => false
        end
      else false
  end.

Fixpoint lstrip_nul (d : bytes) : bytes :=
  match d with
  | b :: d' => if Byte.eqb b x00 then lstrip_nul d' else d
  | [] => []
  end.

(** [s.strip("\x00")] on the encoding: U+0000 is the only character whose
    encoding contains a zero byte. *)
Definition strip_nul (d : bytes) : bytes :=
  rev (lstrip_nul (rev (lstrip_nul d))).

(** [raw.decode().strip("\x00")]. *)
Definition decode_strip (raw : bytes) : result string :=
  if utf8_valid raw then Ok (string_of_list_byte (strip_nul raw))
  else Raise UnicodeDecodeError.

(** ** Files *)

(** The file system: path to contents.  [os.path.exists] is membership,
    [open(path, "wb")] followed by writes is an insertion. *)
Abbreviation files := (gmap string bytes).

(** ** Sockets *)

(** What one [recvfrom] call yields: a datagram, or [socket.timeout]. *)
Inductive rx_event : Type :=
  | RxTimeout
  | RxFrame (d : bytes).

#[global] Instance rx_event_eq_dec : EqDecision rx_event.
Proof. solve_decision. Defined.

(** The calls made on the Sender's socket, in order. *)
Inductive sock_event : Type :=
  | SockOpen
  | SendTo (d : bytes)
  | SockClose.

#[global] Instance sock_event_eq_dec : EqDecision sock_event.
Proof. solve_decision. Defined.

(** ** rudp.py, module level *)

Definition KB : Z := 1024.
Definition MTU_DATA_SIZE : Z := 1480.
Definition REDUNDANCY_SIZE : Z := 8.

(** [wait_ack]: one [recvfrom(KB * 32)]; a receive list that has run out
    is a socket on which nothing arrives any more. *)
Definition wait_ack (rx : list rx_event) : result (list Z) * list rx_event :=
  match rx with
  | [] => (Raise socket_timeout, [])
  | RxTimeout :: rx' => (Raise socket_timeout, rx')
  | RxFrame packed_data :: rx' =>
      (array_frombytes (take (Z.to_nat (KB * 32)) packed_data), rx')
  end.

(** [send_ack]: the frame handed to [sendto] ([OSError] from [sendto] is
    caught and logged, so the call itself is what is recorded);
    [OverflowError] from [array.array] is not caught. *)
Definition send_ack (missed_seqs : list Z) : result (list bytes) :=
  match array_tobytes missed_seqs with
  | Ok packed => Ok [packed]
  | Raise e => Raise e
  end.

(** [resend_dropped_data]: the cached packets in the order of the NACK;
    [KeyError] at the first sequence that is not cached. *)
Fixpoint resend_dropped_data (dropped_seq_numbers : list Z)
    (packet_dict : gmap Z bytes) : result unit * list bytes :=
  match dropped_seq_numbers with
  | [] => (Ok tt, [])
  | seq_number :: l =>
      match packet_dict !! seq_number with
      | None => (Raise KeyError, [])
      | Some p =>
          let '(r, sent) := resend_dropped_data l packet_dict in
          (r, p :: sent)
      end
  end.

(** The [while True] loop of [process_ack].  [None] is the loop bound of
    the model running out, which [process_ack_total] excludes. *)
Fixpoint process_ack_loop (fuel : nat) (retry_count : Z)
    (rx : list rx_event) (packet_dict : gmap Z bytes) (last_seq_number : Z)
  : option (result (list Z)) * list rx_event * list bytes :=
  match fuel with
  | O => (None, rx, [])
  | S fuel' =>
      match wait_ack rx with
      | (Raise socket_timeout, rx') =>
          let retry_count := retry_count + 1 in
          if retry_count >? 5 then (Some (Raise socket_timeout), rx', [])
          else
            match packet_dict !! last_seq_number with
            | None => (Some (Raise KeyError), rx', [])
            | Some p =>
                let '(r, rx'', sent) :=
                  process_ack_loop fuel' retry_count rx' packet_dict
                                   last_seq_number in
                (r, rx'', p :: sent)
            end
      | (r, rx') => (Some r, rx', [])
      end
  end.

Definition process_ack (rx : list rx_event) (packet_dict : gmap Z bytes)
    (last_seq_number : Z)
  : option (result (list Z)) * list rx_event * list bytes :=
  process_ack_loop 6 0 rx packet_dict last_seq_number.

(** ** utils.make_new_filename *)

(** [os.path.splitext]-like split of a path at the last dot of its last
    component. *)
Fixpoint split_ext_rev (racc : list ascii) (r : list ascii)
  : option (list ascii * list ascii) :=
  match r with
  | [] => None
  | c :: r' =>
      if Ascii.eqb c "/"%char then None
      else if Ascii.eqb c "."%char
           then (if match r' with [] => true | c' :: _ => Ascii.eqb c' "/"%char end
                 then None else Some (rev r', c :: racc))
           else split_ext_rev (c :: racc) r'
  end.

Definition splitext (path : string) : string * string :=
  match split_ext_rev [] (rev (list_ascii_of_string path)) with
  | Some (stem, ext) => (string_of_list_ascii stem, string_of_list_ascii ext)
  | None => (path, EmptyString)
  end.

Definition str_of_nat (n : nat) : string := pretty n.

Definition numbered (path : string) (k : nat) : string :=
  let '(stem, ext) := splitext path in
  stem +:+ "(" +:+ str_of_nat k +:+ ")" +:+ ext.

Fixpoint first_free (fs : files) (path : string) (fuel k : nat) : string :=
  match fuel with
  | O => numbered path k
  | S fuel' =>
      match fs !! numbered path k with
      | None => numbered path k
      | Some _ => first_free fs path fuel' (S k)
      end
  end.

(** Modelled from the spec: [utils.make_new_filename] (utils.py is not among
    the sources).  Section 4.4: if the target path already exists, append a
    monotonically increasing counter to the stem ([name.ext], [name(1).ext],
    [name(2).ext], ...); section 6: the suffix is inserted before the
    extension.  It returns the path to open and changes nothing on disk
    (the UDP mirror opens what it returns: [udp.py], line 293). *)
Definition make_new_filename (fs : files) (path : string) : string :=
  match fs !! path with
  | None => path
  | Some _ => first_free fs path (size fs) 1
  end.

(** ** rudp.py, class RUDP *)

Module RUDP.

Definition MSS : Z := 1472.

(** *** The Sender: [send_file] *)

(** Where [send_file] stops: the [while] loop ends on an empty NACK
    ([DONE]), the retransmission budget is spent ([FAILED]), or an exception
    leaves the [try] body ([RAISED]; the [return] of the [finally] clause
    then discards it).  [OUT_OF_FUEL] is the loop bound of the model running
    out, excluded by [send_file_total]. *)
Inductive sender_end : Set :=
  | DONE
  | FAILED
  | RAISED (e : exn)
  | OUT_OF_FUEL.

#[global] Instance sender_end_eq_dec : EqDecision sender_end.
Proof. solve_decision. Defined.

(** [f.read(n)] on the unread rest of the file: what is read, what stays. *)
Definition file_read (n : Z) (f : bytes) : bytes * bytes :=
  if n <? 0 then (f, []) else (take (Z.to_nat n) f, drop (Z.to_nat n) f).

(** The initial pass, [for seq_num in range(total_chunks)]: read a chunk,
    build the packet, cache it, send it. *)
Fixpoint burst (seqs : list Z) (chunk_size : Z) (f : bytes)
    (packet_dict : gmap Z bytes) : result (gmap Z bytes) * list bytes :=
  match seqs with
  | [] => (Ok packet_dict, [])
  | seq_num :: seqs' =>
      let '(chunk_data, f') := file_read chunk_size f in
      match pack_II seq_num chunk_size with
      | None => (Raise struct_error, [])
      | Some h =>
          let packet := h ++ chunk_data in
          let '(r, sent) :=
            burst seqs' chunk_size f' (<[seq_num := packet]> packet_dict) in
          (r, packet :: sent)
      end
  end.

(** The NACK rounds, [while not transfer_complete]. *)
Fixpoint nack_loop (fuel : nat) (rx : list rx_event)
    (packet_dict : gmap Z bytes) (last_seq_number : Z)
    (losses : list (list Z)) : sender_end * list (list Z) * list bytes :=
  match fuel with
  | O => (OUT_OF_FUEL, losses, [])
  | S fuel' =>
      match process_ack rx packet_dict last_seq_number with
      | (None, _, sent) => (OUT_OF_FUEL, losses, sent)
      | (Some (Raise socket_timeout), _, sent) =>
          (FAILED, losses ++ [[-1]], sent)
      | (Some (Raise e), _, sent) => (RAISED e, losses, sent)
      | (Some (Ok dropped_seq_numbers), rx', sent) =>
          let losses := losses ++ [dropped_seq_numbers] in
          if len dropped_seq_numbers =? 0 then (DONE, losses, sent)
          else
            let last_seq_number := max_list_Z dropped_seq_numbers in
            match resend_dropped_data dropped_seq_numbers packet_dict with
            | (Raise e, sent2) => (RAISED e, losses, sent ++ sent2)
            | (Ok _, sent2) =>
                let '(st, losses, sent3) :=
                  nack_loop fuel' rx' packet_dict last_seq_number losses in
                (st, losses, sent ++ sent2 ++ sent3)
            end
      end
  end.

(** What a call of [send_file] did: the list it returns, the calls on its
    socket, and where it stopped. *)
Record send_result : Type := {
  losses : list (list Z);
  sock : list sock_event;
  state : sender_end;
}.

(** The [try] body of [send_file]: where it stops, the loss lists, and the
    datagrams sent. *)
Definition send_body (fs : files) (filename : string) (buffer_size : Z)
    (rx : list rx_event) : sender_end * list (list Z) * list bytes :=
  let chunk_size := buffer_size - REDUNDANCY_SIZE in
  match fs !! filename with
  | None => (RAISED FileNotFoundError, [], [])
  | Some content =>
      let file_size := len content in
      if chunk_size =? 0 then (RAISED ZeroDivisionError, [], [])
      else
        let total_chunks := ceil_div file_size chunk_size in
        match pack_II256s buffer_size total_chunks
                (take 256 (list_byte_of_string filename)) with
        | None => (RAISED struct_error, [], [])
        | Some file_info =>
            let header := take 512 file_info in
            match burst (seqZ 0 total_chunks) chunk_size content ∅ with
            | (Raise e, sent) => (RAISED e, [], header :: sent)
            | (Ok packet_dict, sent) =>
                let last_seq_number := Z.of_nat (size packet_dict) - 1 in
                let '(st, losses, sent2) :=
                  nack_loop (S (length rx)) rx packet_dict last_seq_number []
                in
                (st, losses, header :: sent ++ sent2)
            end
        end
  end.

(** [send_file(filename, host, port, buffer_size, interval)]: the socket is
    created first, the body runs, and the [finally] clause closes the socket
    and returns [losses] whatever happened in the body.  [host], [port] and
    [interval] do not bear on what is modelled: [sendto] is taken to
    succeed and the pacing delay to be non-negative; the log and the
    statistics are left out. *)
Definition send_file (fs : files) (filename : string) (buffer_size : Z)
    (rx : list rx_event) : send_result :=
  let '(st, losses, sent) := send_body fs filename buffer_size rx in
  {| losses := losses;
     sock := SockOpen :: map SendTo sent ++ [SockClose];
     state := st |}.

(** *** The Receiver: [start_server] *)

(** The locals of one transfer. *)
Record transfer : Type := {
  filename : string;
  buffer_size : Z;
  total_chunks : Z;
  chunks : gmap Z bytes;
  last_seq_num : Z;
  total_packets_received : Z;
}.

(** [list(set(range(total_chunks)) - set(chunks.keys()))].  Python leaves
    the order of a set open; the ascending order is taken here, and what is
    proved about the list is about its members. *)
Definition missing (total_chunks : Z) (chunks : gmap Z bytes) : list Z :=
  List.filter (fun s => bool_decide (chunks !! s = None))
              (seqZ 0 total_chunks).

(** How one pass through the body of the inner loop ends: normally, in one
    of its two [except] clauses ([is_error = True; break]), or with an
    exception that no clause catches. *)
Inductive body_end : Type :=
  | Continue (t : transfer) (sent : list bytes)
  | Break (e : exn)
  | Uncaught (e : exn).

(** The body of the inner loop on a datagram: [recvfrom(buffer_size)] cuts
    it to [buffer_size] bytes. *)
Definition collecting_body (t : transfer) (datagram : bytes) : body_end :=
  let data := take (Z.to_nat (buffer_size t)) datagram in
  match unpack_II (take (Z.to_nat REDUNDANCY_SIZE) data) with
  | None => Break struct_error
  | Some (seq_num, chunk_size) =>
      let chunk_data := slice REDUNDANCY_SIZE chunk_size data in
      let chunks' := <[seq_num := chunk_data]> (chunks t) in
      let received := total_packets_received t + 1 in
      if seq_num =? last_seq_num t then
        let missed_seqs := missing (total_chunks t) chunks' in
        let last_seq_num' :=
          if len missed_seqs >? 0 then max_list_Z missed_seqs
          else last_seq_num t in
        match send_ack missed_seqs with
        | Ok sent =>
            Continue {| filename := filename t; buffer_size := buffer_size t;
                        total_chunks := total_chunks t; chunks := chunks';
                        last_seq_num := last_seq_num';
                        total_packets_received := received |} sent
        | Raise e => Uncaught e
        end
      else
        Continue {| filename := filename t; buffer_size := buffer_size t;
                    total_chunks := total_chunks t; chunks := chunks';
                    last_seq_num := last_seq_num t;
                    total_packets_received := received |} []
  end.

(** How the inner loop ends: its condition fails ([Finished]), an [except]
    clause breaks out of it ([Errored]), an exception escapes ([Died]), or
    it is still blocked in [recvfrom] when the receive list ends
    ([Blocked]). *)
Inductive collect_end : Type :=
  | Finished (t : transfer)
  | Errored (e : exn)
  | Died (e : exn)
  | Blocked (t : transfer).

(** The inner loop, [while len(chunks) < total_chunks]. *)
Fixpoint collect (t : transfer) (rx : list rx_event)
  : collect_end * list rx_event * list bytes :=
  if Z.of_nat (size (chunks t)) <? total_chunks t then
    match rx with
    | [] => (Blocked t, [], [])
    | RxTimeout :: rx' => (Errored socket_timeout, rx', [])
    | RxFrame d :: rx' =>
        match collecting_body t d with
        | Continue t' sent =>
            let '(r, rx'', sent') := collect t' rx' in
            (r, rx'', sent ++ sent')
        | Break e => (Errored e, rx', [])
        | Uncaught e => (Died e, rx', [])
        end
    end
  else (Finished t, rx, []).

(** The reassembly loop, [for i in range(total_chunks)]: a chunk that is
    absent is skipped with a warning. *)
Definition assemble (total_chunks : Z) (chunks : gmap Z bytes) : bytes :=
  concat (map (fun i => default [] (chunks !! i)) (seqZ 0 total_chunks)).

(** The [if not is_error] block: the path is built, [make_new_filename] is
    called and its result dropped, and [file_path] itself is opened for
    writing (which is taken to succeed). *)
Definition finalize (target_dir : string) (t : transfer) (fs : files)
  : files :=
  let file_path := target_dir +:+ "/" +:+ filename t in
  let _ := make_new_filename fs file_path in
  <[file_path := assemble (total_chunks t) (chunks t)]> fs.

(** Where the server is when the receive list ends: blocked in the outer
    [recvfrom] ([LISTENING]), blocked in the inner one ([COLLECTING]), or
    gone with an exception that left [start_server] ([DIED]).
    [SERVE_FUEL] is the loop bound of the model running out, excluded by
    [start_server_total]. *)
Inductive server_end : Type :=
  | LISTENING
  | COLLECTING (t : transfer)
  | DIED (e : exn)
  | SERVE_FUEL.

(** What the outer loop does with the frame of its [recvfrom(512)]: the
    unpacking is outside any [try] ([Rejected]: the exception leaves
    [start_server]); a file name that does not decode is skipped with
    [continue] ([Ignored]); otherwise the locals of a transfer are set up
    ([Accepted]). *)
Inductive listen_end : Type :=
  | Accepted (t : transfer)
  | Ignored
  | Rejected (e : exn).

Definition listen (d : bytes) : listen_end :=
  let data := take 512 d in
  match unpack_II256s (take 264 data) with
  | None => Rejected struct_error
  | Some (buffer_size, total_chunks, raw) =>
      match decode_strip raw with
      | Raise _ => Ignored
      | Ok filename =>
          Accepted {| filename := filename;
                      buffer_size := buffer_size;
                      total_chunks := total_chunks;
                      chunks := ∅;
                      last_seq_num := total_chunks - 1;
                      total_packets_received := 0 |}
      end
  end.

(** The outer loop, [while True]: a header frame, the inner loop, the
    reassembly.  A timeout of the outer [recvfrom] is swallowed by its bare
    [except]. *)
Fixpoint serve (fuel : nat) (target_dir : string) (rx : list rx_event)
    (fs : files) : server_end * files * list bytes :=
  match rx with
  | [] => (LISTENING, fs, [])
  | ev :: rx' =>
      match fuel with
      | O => (SERVE_FUEL, fs, [])
      | S fuel' =>
          match ev with
          | RxTimeout => serve fuel' target_dir rx' fs
          | RxFrame d =>
              match listen d with
              | Rejected e => (DIED e, fs, [])
              | Ignored => serve fuel' target_dir rx' fs
              | Accepted t =>
                  match collect t rx' with
                  | (Finished t', rx'', sent) =>
                      let '(e, fs', sent') :=
                        serve fuel' target_dir rx''
                              (finalize target_dir t' fs) in
                      (e, fs', sent ++ sent')
                  | (Errored _, rx'', sent) =>
                      let '(e, fs', sent') :=
                        serve fuel' target_dir rx'' fs in
                      (e, fs', sent ++ sent')
                  | (Died e, _, sent) => (DIED e, fs, sent)
                  | (Blocked t', _, sent) => (COLLECTING t', fs, sent)
                  end
              end
          end
      end
  end.

(** [start_server(host, port, target_dir)] on the datagrams and timeouts of
    [rx]: where it ends up, the files on disk, the NACK frames sent. *)
Definition start_server (target_dir : string) (rx : list rx_event)
    (fs : files) : server_end * files * list bytes :=
  serve (length rx) target_dir rx fs.

End RUDP.

(** ** udp.py, class UDP: the Receiver of the best-effort mirror *)

Module UDP.

(** The JSON object of the [FILE_INFO:] frame. *)
Record file_info : Type := {
  filename : string;
  filesize : Z;
  total_chunks : Z;
  chunk_size : Z;
}.

(** The JSON object sent back ([error], a message for the log, is left
    out).  [loss_rate] is a Python float; the exact quotient is kept. *)
Record response : Type := {
  success : bool;
  received_packets : Z;
  expected_packets : Z;
  packet_loss : Z;
  loss_rate : Q;
}.

Definition TRANSFER_END : bytes := list_byte_of_string "TRANSFER_END".

(** The data loop, [while True] with [recvfrom(65536)].  The socket
    timeout is 10 s, so at a timeout more than 3 s have passed since the
    last packet and the loop always breaks; a receive list that has run out
    is a socket on which nothing arrives any more.  [progress] divides by
    [total_chunks]. *)
Fixpoint receive_loop (total_chunks : Z) (chunks : gmap Z bytes)
    (rx : list rx_event) : result (gmap Z bytes) * list rx_event :=
  match rx with
  | [] => (Ok chunks, [])
  | RxTimeout :: rx' => (Ok chunks, rx')
  | RxFrame d :: rx' =>
      let data := take (Z.to_nat 65536) d in
      if bool_decide (data = TRANSFER_END) then (Ok chunks, rx')
      else if len data <? 12 then receive_loop total_chunks chunks rx'
      else
        match unpack_III (take 12 data) with
        | None => (Raise struct_error, rx')
        | Some (seq_num, total, data_size) =>
            let chunk_data := slice 12 data_size data in
            let chunks := <[seq_num := chunk_data]> chunks in
            if total_chunks =? 0 then (Raise ZeroDivisionError, rx')
            else receive_loop total_chunks chunks rx'
        end
  end.

(** The loss check and the reply (lines 277-361): the file is written
    only when nothing is missing. *)
Definition make_response (total_chunks : Z) (chunks : gmap Z bytes)
  : response :=
  let received_packets := Z.of_nat (size chunks) in
  let expected_packets := total_chunks in
  let packet_loss := expected_packets - received_packets in
  let loss_rate :=
    if expected_packets >? 0
    then (inject_Z packet_loss / inject_Z expected_packets * 100)%Q
    else 0%Q in
  {| success := packet_loss =? 0;
     received_packets := received_packets;
     expected_packets := expected_packets;
     packet_loss := packet_loss;
     loss_rate := loss_rate |}.

(** One reception of [start_server], from the parsed header to the reply:
    an exception in the data loop is caught by the outer handler, which
    sends no reply. *)
Definition receive (info : file_info) (rx : list rx_event)
  : result response * list rx_event :=
  match receive_loop (total_chunks info) ∅ rx with
  | (Ok chunks, rx') => (Ok (make_response (total_chunks info) chunks), rx')
  | (Raise e, rx') => (Raise e, rx')
  end.

End UDP.

(** ** Vocabulary of the statements *)

(** The frames of a receive list, as [wait_ack] reads them. *)
Definition frames (rx : list rx_event) : list bytes :=
  omap (fun ev => match ev with
                  | RxFrame d => Some (take (Z.to_nat (KB * 32)) d)
                  | RxTimeout => None
                  end) rx.

(** The [except socket.timeout] branch of [process_ack]. *)
Definition on_timeout (fuel : nat) (rc : Z) (rest : list rx_event)
    (pd : gmap Z bytes) (last : Z)
  : option (result (list Z)) * list rx_event * list bytes :=
  if rc + 1 >? 5 then (Some (Raise socket_timeout), rest, [])
  else match pd !! last with
       | None => (Some (Raise KeyError), rest, [])
       | Some p =>
           let '(r, rx'', sent) :=
             process_ack_loop fuel (rc + 1) rest pd last in
           (r, rx'', p :: sent)
       end.

(** The sentinel that [send_file] appends when it gives up. *)
Definition sentinel (st : RUDP.sender_end) : list (list Z) :=
  match st with
  | RUDP.FAILED => [[-1]]
  | _ => []
  end.

(** The payload of sequence [s]: the bytes of the file from [s * chunk_size]
    on, at most [chunk_size] of them. *)
Definition chunk_of (content : bytes) (chunk_size s : Z) : bytes :=
  slice (s * chunk_size) chunk_size content.

(** The data frame of sequence [s] as [send_file] builds it. *)
Definition frame_of (content : bytes) (chunk_size s : Z) : bytes :=
  default [] (pack_II s chunk_size) ++ chunk_of content chunk_size s.


(** ** A worked transfer

    An eleven-byte file sent with [buffer_size = 12], so in three chunks of
    at most four bytes. *)

Definition ex_content : bytes := list_byte_of_string "hello world".

Definition ex_fs : files := {[ "x.bin"%string := ex_content ]}.

(** The datagrams among the calls on a socket. *)
Definition datagrams (tr : list sock_event) : list bytes :=
  omap (fun e => match e with SendTo d => Some d | _ => None end) tr.

(** The Sender gets the empty NACK in its first window. *)
Definition ex_sent : list bytes :=
  datagrams (RUDP.sock (RUDP.send_file ex_fs "x.bin" 12 [RxFrame []])).

Definition ex_hdr : bytes := hd [] ex_sent.

Definition ex_dgrams : list bytes := tl ex_sent.

(** The Receiver gets frame 1, frame 0 twice, then frame 2. *)
Definition ex_rx : list rx_event :=
  map (fun i => RxFrame (nth i ex_dgrams [])) [1; 0; 0; 2]%nat.

Definition ex_t0 : RUDP.transfer :=
  {| RUDP.filename := "x.bin"; RUDP.buffer_size := 12;
     RUDP.total_chunks := 3; RUDP.chunks := ∅; RUDP.last_seq_num := 2;
     RUDP.total_packets_received := 0 |}.

(** How many times a datagram was handed to [sendto]. *)
Definition emitted (p : bytes) (tr : list sock_event) : nat :=
  count_occ sock_event_eq_dec tr (SendTo p).

(** A second file sent under the same name. *)
Definition ex2_content : bytes := list_byte_of_string "HELLO".

Definition ex2_sent : list bytes :=
  datagrams (RUDP.sock (RUDP.send_file {[ "x.bin"%string := ex2_content ]}
                                       "x.bin" 12 [RxFrame []])).

(** The packet dictionary of the worked transfer, and a NACK frame that
    lists sequences 0 and 1. *)
Definition ex_pd : gmap Z bytes :=
  match RUDP.burst (seqZ 0 3) 4 ex_content ∅ with
  | (Ok pd, _) => pd
  | (Raise _, _) => ∅
  end.

Definition ex_nack : bytes := i32_bytes 0 ++ i32_bytes 1.

(** The sequence numbers that the data loop of the UDP Receiver stores: the
    first field of each frame of at least 12 bytes that comes before the
    end marker or the first timeout. *)
Fixpoint stored_seqs (rx : list rx_event) : list Z :=
  match rx with
  | [] => []
  | RxTimeout :: _ => []
  | RxFrame d :: rx' =>
      let data := take (Z.to_nat 65536) d in
      if bool_decide (data = UDP.TRANSFER_END) then []
      else
        match data with
        | a0 :: a1 :: a2 :: a3 :: _ :: _ :: _ :: _ :: _ :: _ :: _ :: _ :: _ =>
            be32 a0 a1 a2 a3 :: stored_seqs rx'
        | _ => stored_seqs rx'
        end
  end.

(** A lossy reception of the UDP mirror: 4 chunks announced, sequences 0, 2
    and 2 again arrive, then the end marker. *)
Definition ex_udp_info : UDP.file_info :=
  {| UDP.filename := "x.bin"; UDP.filesize := 16; UDP.total_chunks := 4;
     UDP.chunk_size := 4 |}.

Definition ex_udp_frame (s : Z) : bytes :=
  default [] (pack_u32 s) ++ default [] (pack_II 4 4)
  ++ list_byte_of_string "abcd".

Definition ex_udp_rx : list rx_event :=
  [RxFrame (ex_udp_frame 0); RxFrame (ex_udp_frame 2);
   RxFrame (ex_udp_frame 2); RxFrame UDP.TRANSFER_END].

(** ** Further vocabulary *)

(** [struct.pack("!III", a, b, c)]. *)
Definition pack_III (a b c : Z) : option bytes :=
  match pack_u32 a, pack_II b c with
  | Some x, Some y => Some (x ++ y)
  | _, _ => None
  end.

(** The packets that [resend_dropped_data] finds cached. *)
Definition cached (pd : gmap Z bytes) (l : list Z) : list bytes :=
  map (fun s => default [] (pd !! s)) l.

(** A transfer whose chunk map has every sequence of [0, total_chunks). *)
Definition complete (t : RUDP.transfer) : Prop :=
  forall k, 0 <= k < RUDP.total_chunks t -> is_Some (RUDP.chunks t !! k).


(** ** udp.py, class UDP: the Sender of the best-effort mirror *)

Module UDP_sender.

Definition MSS : Z := 1472.

(** [os.path.basename]: what follows the last slash. *)
Fixpoint basename_from (tail path : string) : string :=
  match path with
  | EmptyString => tail
  | String c rest =>
      if Ascii.eqb c "/" then basename_from rest rest
      else basename_from tail rest
  end.

Definition basename (path : string) : string := basename_from path path.

(** What [send_file] hands to [sendto]: the [FILE_INFO:] frame, kept as its
    JSON object, or a frame of bytes. *)
Inductive packet : Type :=
  | FILE_INFO (info : UDP.file_info)
  | DATA (d : bytes).

(** Where [send_file] stops before any reply is read: the file is missing
    ([return False]), an exception is caught by [except Exception]
    ([return False] again), or the end marker is out and the socket waits
    for the reply, which decides the value returned. *)
Inductive sender_end : Type :=
  | MISSING
  | CAUGHT (e : exn)
  | AWAITING_REPLY.

(** The data loop, [for seq_num in range(total_chunks)]: read a chunk, pack
    the sequence, the count and the length of what was read, send. *)
Fixpoint data_loop (seqs : list Z) (total_chunks chunk_size : Z) (f : bytes)
  : result unit * list bytes :=
  match seqs with
  | [] => (Ok tt, [])
  | seq_num :: seqs' =>
      let '(chunk_data, f') := RUDP.file_read chunk_size f in
      match pack_III seq_num total_chunks (len chunk_data) with
      | None => (Raise struct_error, [])
      | Some h =>
          let packet := h ++ chunk_data in
          let '(r, sent) := data_loop seqs' total_chunks chunk_size f' in
          (r, packet :: sent)
      end
  end.

(** [send_file(filename, host, port, buffer_size, interval)] up to the wait
    for the reply.  [sendto] is taken to succeed; the log, the pacing and
    the statistics are left out. *)
Definition send_file (fs : files) (filename : string) (buffer_size : Z)
  : sender_end * list packet :=
  match fs !! filename with
  | None => (MISSING, [])
  | Some content =>
      let file_size := len content in
      let chunk_size := buffer_size - 12 in
      if chunk_size =? 0 then (CAUGHT ZeroDivisionError, [])
      else
        let total_chunks := ceil_div file_size chunk_size in
        let file_info :=
          {| UDP.filename := basename filename;
             UDP.filesize := file_size;
             UDP.total_chunks := total_chunks;
             UDP.chunk_size := chunk_size |} in
        match data_loop (seqZ 0 total_chunks) total_chunks chunk_size
                        content with
        | (Raise e, sent) => (CAUGHT e, FILE_INFO file_info :: map DATA sent)
        | (Ok _, sent) =>
            (AWAITING_REPLY,
             FILE_INFO file_info :: map DATA sent ++ [DATA UDP.TRANSFER_END])
        end
  end.

End UDP_sender.

(** The data frame of sequence [s] as [UDP.send_file] builds it. *)
Definition udp_frame_of (content : bytes) (chunk_size total_chunks s : Z)
  : bytes :=
  default [] (pack_III s total_chunks (len (chunk_of content chunk_size s)))
  ++ chunk_of content chunk_size s.

(** The write loop of the UDP Receiver (udp.py, lines 296-299),
    [for i in range(total_chunks): if i in chunks: f.write(chunks[i])]. *)
Definition udp_written (total_chunks : Z) (chunks : gmap Z bytes) : bytes :=
  concat (map (fun i => default [] (chunks !! i)) (seqZ 0 total_chunks)).

(** The chunk map after the sequences of [l] were stored in turn. *)
Definition stored (content : bytes) (chunk_size : Z) (l : list Z)
    (chunks : gmap Z bytes) : gmap Z bytes :=
  foldl (fun m s => <[s := chunk_of content chunk_size s]> m) chunks l.

(** ** main.py *)

Module Main.

Inductive protocol : Type := P_RUDP | P_TCP | P_UDP | P_QUIC.

(** The class attribute [MSS] of each protocol. *)
Definition MSS (p : protocol) : Z :=
  match p with
  | P_RUDP => RUDP.MSS
  | P_TCP => 1460
  | P_UDP => UDP_sender.MSS
  | P_QUIC => 1200
  end.

(** The parameters that [start_server] declares after [self], class by
    class. *)
Definition start_server_params (p : protocol) : list string :=
  match p with
  | P_RUDP | P_TCP => ["host"; "port"; "target_dir"]%string
  | P_UDP | P_QUIC => ["host"; "port"; "target_dir"; "log_filename"]%string
  end.

(** The parameters of [start_server] that have no default. *)
Definition start_server_required : list string := ["host"; "port"]%string.

(** Python's binding of a call made with keyword arguments only: it fails
    with [TypeError] when a keyword names no parameter or a parameter
    without default gets no value. *)
Definition binds (params required kwargs : list string) : bool :=
  forallb (fun k => bool_decide (k ∈ params)) kwargs
  && forallb (fun r => bool_decide (r ∈ kwargs)) required.

(** How the [__main__] block ends (without [--developer]): an exception, or
    the call it makes. *)
Inductive outcome : Type :=
  | VALUE_ERROR
  | TYPE_ERROR
  | SEND_FILE (p : protocol) (buffer_size : Z)
  | START_SERVER (p : protocol).

(** The dispatch on [--protocol] (the QUIC libraries being installed). *)
Definition select (arg_protocol : string) (arg_buffer_size : Z)
  : option (protocol * Z) :=
  if String.eqb arg_protocol "rudp"
  then Some (P_RUDP, 1460 + (arg_buffer_size - 1) * MSS P_RUDP)
  else if String.eqb arg_protocol "tcp"
  then Some (P_TCP, arg_buffer_size * MSS P_TCP)
  else if String.eqb arg_protocol "udp"
  then Some (P_UDP, arg_buffer_size * MSS P_UDP)
  else if String.eqb arg_protocol "quic"
  then Some (P_QUIC, arg_buffer_size * MSS P_QUIC)
  else None.

Definition main (arg_protocol : string) (arg_buffer_size : Z)
    (arg_is_client : bool) : outcome :=
  match select arg_protocol arg_buffer_size with
  | None => VALUE_ERROR
  | Some (p, buffer_size) =>
      if arg_is_client then SEND_FILE p buffer_size
      else if binds (start_server_params p) start_server_required
                    ["host"; "port"; "log_filename"]%string
           then START_SERVER p
           else TYPE_ERROR
  end.

(** *** [program], the sweep of the developer mode *)

(** One call of [_protocol.send_file]: the buffer size and the interval. *)
Definition call : Type := Z * Q.

Definition start_buffer_size_coef : Z := 4.
Definition end_buffer_size_coef : Z := 16.
Definition iterate_num : nat := 50.
Definition start_interval : Q := 1 # 10000.
Definition end_interval : Q := 1 # 1000.

(** The inner loop, [while buffer_size_coef <= end_buffer_size_coef]: fifty
    calls, then the coefficient is doubled.  [None]: the bound of the model
    ran out. *)
Fixpoint coef_loop (fuel : nat) (buffer_size_coef : Z) (interval : Q)
  : option (list call) :=
  if buffer_size_coef <=? end_buffer_size_coef then
    match fuel with
    | O => None
    | S fuel' =>
        match coef_loop fuel' (buffer_size_coef * 2) interval with
        | Some calls =>
            Some (replicate iterate_num (1024 * buffer_size_coef, interval)
                  ++ calls)
        | None => None
        end
    end
  else Some [].

(** The outer loop, [while interval <= end_interval], run for at most
    [rounds] passes: the calls made, and whether the loop has been left.
    The statement [interval += interval_of_interval] stands after the loop,
    not in it. *)
Fixpoint interval_loop (rounds : nat) (interval : Q)
  : list call * bool :=
  match rounds with
  | O => ([], negb (Qle_bool interval end_interval))
  | S rounds' =>
      if Qle_bool interval end_interval then
        match coef_loop (Z.to_nat end_buffer_size_coef)
                        start_buffer_size_coef interval with
        | Some calls =>
            let '(calls', exited) := interval_loop rounds' interval in
            (calls ++ calls', exited)
        | None => ([], false)
        end
      else ([], true)
  end.

Definition program (rounds : nat) : list call * bool :=
  interval_loop rounds start_interval.

End Main.

(** One pass of the body of the outer loop of [program]: fifty calls for
    each of the buffer sizes 4, 8 and 16 KiB. *)
Definition sweep (interval : Q) : list Main.call :=
  replicate Main.iterate_num (4096, interval)
  ++ replicate Main.iterate_num (8192, interval)
  ++ replicate Main.iterate_num (16384, interval).

(** The counters that [RUDP.start_server] logs after a reception
    (rudp.py, lines 343-345). *)
Definition unique_packets (t : RUDP.transfer) : Z :=
  Z.of_nat (size (RUDP.chunks t)).

Definition duplicate_packets (t : RUDP.transfer) : Z :=
  RUDP.total_packets_received t - unique_packets t.

Definition packet_loss_count (t : RUDP.transfer) : Z :=
  RUDP.total_chunks t - unique_packets t.

(** * Properties *)

(** Case analysis on the first [n] bytes of a datagram. *)
Ltac destruct_prefix d n :=
  lazymatch n with
  | O => idtac
  | S ?m =>
      let b := fresh "b" in
      let d' := fresh "d" in
      destruct d as [|b d']; [|destruct_prefix d' m]
  end.

(** Goals closed by the length of a list that is known by now. *)
Ltac by_length H := unfold len in H; simpl in H; lia.

(** ** The frame codec *)

Lemma Z_of_byte_range (b : byte) : 0 <= Z_of_byte b < 256.
Proof.
  unfold Z_of_byte. pose proof (Byte.to_N_bounded b) as H.
  apply N2Z.inj_le in H. change (Z.of_N 255) with 255 in H.
  pose proof (N2Z.is_nonneg (Byte.to_N b)). lia.
Qed.

Lemma Z_of_byte_of_Z (z : Z) : Z_of_byte (byte_of_Z z) = z mod 256.
Proof.
  unfold Z_of_byte, byte_of_Z.
  pose proof (Z.mod_pos_bound z 256 ltac:(lia)) as Hb.
  destruct (Byte.of_N (Z.to_N (z mod 256))) as [y|] eqn:E; simpl.
  - apply Byte.to_of_N in E. rewrite E. apply Z2N.id. lia.
  - apply Byte.of_N_None_iff in E. lia.
Qed.

Lemma u32_digits (n : Z) :
  0 <= n < 2 ^ 32 ->
  (n / 2 ^ 24) mod 256 * 2 ^ 24 + (n / 2 ^ 16) mod 256 * 2 ^ 16
  + (n / 2 ^ 8) mod 256 * 2 ^ 8 + n mod 256 = n.
Proof.
  intros Hn.
  change (2 ^ 24) with (256 * (256 * 256)).
  change (2 ^ 16) with (256 * 256). change (2 ^ 8) with 256.
  rewrite <- !Z.div_div by lia.
  set (a := n / 256). set (b := a / 256). set (c := b / 256).
  pose proof (Z.div_mod n 256 ltac:(lia)) as H0.
  pose proof (Z.div_mod a 256 ltac:(lia)) as H1.
  pose proof (Z.div_mod b 256 ltac:(lia)) as H2.
  fold a in H0. fold b in H1. fold c in H2.
  assert (0 <= c < 256) as Hc.
  { subst c b a. rewrite !Z.div_div by lia. split.
    - apply Z.div_pos; lia.
    - apply Z.div_lt_upper_bound; lia. }
  rewrite (Z.mod_small c 256) by lia. lia.
Qed.

Lemma is_u32_spec (n : Z) : is_u32 n = true <-> 0 <= n < 2 ^ 32.
Proof. unfold is_u32. rewrite andb_true_iff, Z.leb_le, Z.ltb_lt. tauto. Qed.

Lemma is_i32_spec (n : Z) : is_i32 n = true <-> - 2 ^ 31 <= n < 2 ^ 31.
Proof. unfold is_i32. rewrite andb_true_iff, Z.leb_le, Z.ltb_lt. tauto. Qed.

Lemma pack_u32_Some (n : Z) (h : bytes) :
  pack_u32 n = Some h ->
  0 <= n < 2 ^ 32 /\
  exists b0 b1 b2 b3, h = [b0; b1; b2; b3] /\ be32 b0 b1 b2 b3 = n.
Proof.
  unfold pack_u32. destruct (is_u32 n) eqn:E; [|discriminate].
  apply is_u32_spec in E. intros [= <-]. split; [exact E|].
  do 4 eexists. split; [reflexivity|].
  unfold be32. rewrite !Z_of_byte_of_Z. apply u32_digits, E.
Qed.

Lemma pack_u32_is_Some (n : Z) : 0 <= n < 2 ^ 32 -> is_Some (pack_u32 n).
Proof.
  intros H. unfold pack_u32. apply is_u32_spec in H. rewrite H. eauto.
Qed.

(** Unpacking what [struct.pack("!II", a, b)] made gives [a] and [b] back,
    also when payload bytes follow the eight header bytes. *)
Lemma unpack_pack_II (a b : Z) (h rest : bytes) :
  pack_II a b = Some h ->
  length h = 8%nat /\ unpack_II (take 8 (h ++ rest)) = Some (a, b)
  /\ 0 <= a < 2 ^ 32 /\ 0 <= b < 2 ^ 32.
Proof.
  unfold pack_II.
  destruct (pack_u32 a) as [x|] eqn:Ea; [|discriminate].
  destruct (pack_u32 b) as [y|] eqn:Eb; [|discriminate].
  intros [= <-].
  apply pack_u32_Some in Ea as (Ha & a0 & a1 & a2 & a3 & -> & Hxa).
  apply pack_u32_Some in Eb as (Hb & b0 & b1 & b2 & b3 & -> & Hxb).
  simpl. rewrite Hxa, Hxb. auto.
Qed.

Lemma pack_II_is_Some (a b : Z) :
  0 <= a < 2 ^ 32 -> 0 <= b < 2 ^ 32 -> is_Some (pack_II a b).
Proof.
  intros Ha Hb. unfold pack_II.
  destruct (pack_u32_is_Some a Ha) as [x ->].
  destruct (pack_u32_is_Some b Hb) as [y ->]. eauto.
Qed.

Lemma le_i32_bytes (n : Z) (rest : bytes) :
  - 2 ^ 31 <= n < 2 ^ 31 ->
  exists b0 b1 b2 b3,
    i32_bytes n = [b0; b1; b2; b3] /\ le_i32 b0 b1 b2 b3 = n.
Proof.
  intros Hn. unfold i32_bytes. cbv zeta. do 4 eexists.
  split; [reflexivity|].
  unfold le_i32, be32. rewrite !Z_of_byte_of_Z.
  pose proof (Z.mod_pos_bound n (2 ^ 32) ltac:(lia)) as Hu.
  rewrite (u32_digits _ Hu).
  destruct (Z.ltb_spec (n mod 2 ^ 32) (2 ^ 31)) as [Hlt|Hge].
  - destruct (Z.le_gt_cases 0 n) as [Hp|Hneg].
    + apply Z.mod_small. lia.
    + exfalso. assert (n mod 2 ^ 32 = n + 2 ^ 32) as E; [|lia].
      symmetry. apply (Z.mod_unique n (2 ^ 32) (-1)); lia.
  - destruct (Z.le_gt_cases 0 n) as [Hp|Hneg].
    + exfalso. rewrite Z.mod_small in Hge; lia.
    + assert (n mod 2 ^ 32 = n + 2 ^ 32) as E; [|lia].
      symmetry. apply (Z.mod_unique n (2 ^ 32) (-1)); lia.
Qed.

(** A NACK frame decodes to the list it was packed from. *)
Lemma array_roundtrip (l : list Z) (d : bytes) :
  array_tobytes l = Ok d -> array_frombytes d = Ok l.
Proof.
  revert d. induction l as [|n l IH]; intros d; cbn [array_tobytes].
  - intros [= <-]. reflexivity.
  - destruct (is_i32 n) eqn:En; [|discriminate].
    destruct (array_tobytes l) as [d'|e]; [|discriminate].
    intros [= <-]. apply is_i32_spec in En.
    destruct (le_i32_bytes n [] En) as (b0 & b1 & b2 & b3 & Hb & Hv).
    change (array_frombytes (i32_bytes n ++ d') = Ok (n :: l)).
    rewrite Hb. simpl. rewrite (IH d' eq_refl), Hv. reflexivity.
Qed.

Lemma array_tobytes_Ok (l : list Z) :
  Forall (fun n => - 2 ^ 31 <= n < 2 ^ 31) l ->
  exists d, array_tobytes l = Ok d.
Proof.
  induction 1 as [|n l Hn _ [d IH]]; simpl; [eauto|].
  apply is_i32_spec in Hn. rewrite Hn, IH. eauto.
Qed.


(** ** The Sender waiting for a NACK *)

Lemma array_frombytes_Raise (d : bytes) (e : exn) :
  array_frombytes d = Raise e -> e = ValueError.
Proof.
  remember (length d) as n eqn:Hn. revert d Hn e.
  induction n as [n IH] using lt_wf_ind. intros d Hn e.
  destruct d as [|b0 [|b1 [|b2 [|b3 d]]]]; simpl; try congruence.
  destruct (array_frombytes d) as [l|e'] eqn:E; [discriminate|].
  intros [= <-]. apply (IH (length d)) with (d := d); [|reflexivity|exact E].
  subst n. simpl. lia.
Qed.

(** The two ways through the body of the loop of [process_ack]. *)
Lemma process_ack_loop_frame (fuel : nat) (rc : Z) (d : bytes)
    (rest : list rx_event) (pd : gmap Z bytes) (last : Z) :
  process_ack_loop (S fuel) rc (RxFrame d :: rest) pd last
  = (Some (array_frombytes (take (Z.to_nat (KB * 32)) d)), rest, []).
Proof.
  cbn [process_ack_loop wait_ack].
  destruct (array_frombytes _) as [l|e] eqn:E; [reflexivity|].
  apply array_frombytes_Raise in E. subst e. reflexivity.
Qed.

Lemma process_ack_loop_timeout (fuel : nat) (rc : Z) (rest : list rx_event)
    (pd : gmap Z bytes) (last : Z) :
  process_ack_loop (S fuel) rc (RxTimeout :: rest) pd last
  = on_timeout fuel rc rest pd last.
Proof. reflexivity. Qed.

Lemma process_ack_loop_idle (fuel : nat) (rc : Z) (pd : gmap Z bytes)
    (last : Z) :
  process_ack_loop (S fuel) rc [] pd last = on_timeout fuel rc [] pd last.
Proof. reflexivity. Qed.

(** What one call of [process_ack] amounts to: it never exhausts the loop
    bound of the model, it retransmits nothing but the pivot, and a list it
    returns is the decoding of the first frame of the receive list. *)
Lemma process_ack_loop_inv (fuel : nat) (rc : Z) (rx : list rx_event)
    (pd : gmap Z bytes) (last : Z) r rx' sent :
  0 <= rc <= 5 -> 6 <= rc + Z.of_nat fuel ->
  process_ack_loop fuel rc rx pd last = (r, rx', sent) ->
  (length rx' <= length rx)%nat /\
  Forall (fun p => pd !! last = Some p) sent /\
  exists res, r = Some res /\
    forall l, res = Ok l ->
      exists d, array_frombytes d = Ok l /\ frames rx = d :: frames rx'
                /\ (length rx' < length rx)%nat.
Proof.
  revert rc rx r rx' sent.
  induction fuel as [|fuel IH]; intros rc rx r rx' sent Hrc Hf; [lia|].
  assert (forall rest,
    on_timeout fuel rc rest pd last = (r, rx', sent) ->
    (length rest <= length rx)%nat -> frames rx = frames rest ->
    (length rx' <= length rx)%nat /\
    Forall (fun p => pd !! last = Some p) sent /\
    exists res, r = Some res /\
      forall l, res = Ok l ->
        exists d, array_frombytes d = Ok l /\ frames rx = d :: frames rx'
                  /\ (length rx' < length rx)%nat) as Htimeout.
  { intros rest. unfold on_timeout. intros H Hlen Hfr.
    destruct (Z.gtb_spec (rc + 1) 5) as [Hgt|Hle].
    - inversion H; subst. split; [lia|]. split; [constructor|].
      eexists. split; [reflexivity|]. discriminate.
    - destruct (pd !! last) as [p|] eqn:Ep.
      + destruct (process_ack_loop fuel (rc + 1) rest pd last)
          as [[r0 rx0] sent0] eqn:E.
        inversion H; subst.
        apply IH in E as (Hl & Hs & res & -> & Hres); [|lia|lia].
        split; [lia|]. split; [constructor; auto|].
        exists res. split; [reflexivity|]. intros l Hl'.
        destruct (Hres l Hl') as (d & Hd & Hfr' & Hlt).
        exists d. rewrite Hfr. repeat split; auto. lia.
      + inversion H; subst. split; [lia|]. split; [constructor|].
        eexists. split; [reflexivity|]. discriminate. }
  destruct rx as [|[|d] rest].
  - rewrite process_ack_loop_idle. intros H.
    apply Htimeout in H; auto.
  - rewrite process_ack_loop_timeout. intros H.
    apply Htimeout in H; simpl; auto.
  - rewrite process_ack_loop_frame. intros [= <- <- <-].
    split; [simpl; lia|]. split; [constructor|].
    eexists. split; [reflexivity|]. intros l Hl.
    eexists. split; [exact Hl|]. split; [reflexivity|simpl; lia].
Qed.

Lemma process_ack_inv (rx : list rx_event) (pd : gmap Z bytes) (last : Z)
    r rx' sent :
  process_ack rx pd last = (r, rx', sent) ->
  (length rx' <= length rx)%nat /\
  Forall (fun p => pd !! last = Some p) sent /\
  exists res, r = Some res /\
    forall l, res = Ok l ->
      exists d, array_frombytes d = Ok l /\ frames rx = d :: frames rx'
                /\ (length rx' < length rx)%nat.
Proof. apply process_ack_loop_inv; lia. Qed.

(** [process_ack] is total: the bound of six passes is never met. *)
Lemma process_ack_total (rx : list rx_event) (pd : gmap Z bytes) (last : Z) :
  (process_ack rx pd last).1.1 <> None.
Proof.
  destruct (process_ack rx pd last) as [[r rx'] sent] eqn:E.
  apply process_ack_inv in E as (_ & _ & res & -> & _). discriminate.
Qed.

(** Six windows without a frame: five retransmissions of the pivot, then
    [socket.timeout] leaves [process_ack]. *)
Lemma process_ack_loop_timeouts (fuel : nat) (rc : Z) (rx : list rx_event)
    (pd : gmap Z bytes) (last : Z) (p : bytes) :
  pd !! last = Some p ->
  Forall (fun ev => ev = RxTimeout) (take fuel rx) ->
  rc + Z.of_nat fuel = 6 -> (1 <= fuel)%nat -> 0 <= rc ->
  process_ack_loop fuel rc rx pd last
  = (Some (Raise socket_timeout), drop fuel rx, replicate (fuel - 1) p).
Proof.
  intros Hp. revert rc rx.
  induction fuel as [|fuel IH]; intros rc rx Hall Hsum Hfuel Hrc; [lia|].
  assert (forall rest,
    Forall (fun ev => ev = RxTimeout) (take fuel rest) ->
    on_timeout fuel rc rest pd last
    = (Some (Raise socket_timeout), drop fuel rest, replicate fuel p))
    as Htimeout.
  { intros rest Hrest. unfold on_timeout.
    destruct (Z.gtb_spec (rc + 1) 5) as [Hgt|Hle].
    - assert (fuel = O) as -> by lia. rewrite drop_0. reflexivity.
    - rewrite Hp, IH by (auto; lia).
      destruct fuel as [|fuel]; [lia|]. simpl. rewrite Nat.sub_0_r.
      reflexivity. }
  replace (S fuel - 1)%nat with fuel by lia.
  destruct rx as [|[|d] rest].
  - rewrite process_ack_loop_idle, Htimeout.
    + rewrite !drop_nil. reflexivity.
    + rewrite take_nil. constructor.
  - rewrite process_ack_loop_timeout. apply Htimeout.
    simpl in Hall. inversion Hall; assumption.
  - simpl in Hall. inversion Hall; discriminate.
Qed.

Lemma process_ack_timeouts (rx : list rx_event) (pd : gmap Z bytes)
    (last : Z) (p : bytes) :
  pd !! last = Some p ->
  Forall (fun ev => ev = RxTimeout) (take 6 rx) ->
  process_ack rx pd last
  = (Some (Raise socket_timeout), drop 6 rx, replicate 5 p).
Proof.
  intros Hp Hall. unfold process_ack.
  rewrite (process_ack_loop_timeouts 6 0 rx pd last p); auto; lia.
Qed.

(** ** The NACK rounds of the Sender *)

(** One pass of the [while] loop of [send_file], by what [process_ack]
    returned. *)
Lemma nack_loop_unfold (fuel : nat) (rx : list rx_event)
    (pd : gmap Z bytes) (last : Z) (losses : list (list Z))
    (res : result (list Z)) rx' sent :
  process_ack rx pd last = (Some res, rx', sent) ->
  RUDP.nack_loop (S fuel) rx pd last losses =
  match res with
  | Raise socket_timeout => (RUDP.FAILED, losses ++ [[-1]], sent)
  | Raise e => (RUDP.RAISED e, losses, sent)
  | Ok l =>
      if len l =? 0 then (RUDP.DONE, losses ++ [l], sent)
      else
        match resend_dropped_data l pd with
        | (Raise e, sent2) => (RUDP.RAISED e, losses ++ [l], sent ++ sent2)
        | (Ok _, sent2) =>
            let '(st, ls, sent3) :=
              RUDP.nack_loop fuel rx' pd (max_list_Z l) (losses ++ [l]) in
            (st, ls, sent ++ sent2 ++ sent3)
        end
  end.
Proof.
  intros H. cbn [RUDP.nack_loop]. rewrite H.
  destruct res as [l|[]]; reflexivity.
Qed.

Lemma len_0_nil {A} (l : list A) : (len l =? 0) = true -> l = [].
Proof.
  unfold len. intros H. apply Z.eqb_eq in H. destruct l; [auto|simpl in H; lia].
Qed.

Lemma len_pos_cons {A} (l : list A) : (len l =? 0) = false -> l <> [].
Proof. intros H ->. discriminate. Qed.

Lemma resend_dropped_data_sent (l : list Z) (pd : gmap Z bytes) r sent :
  resend_dropped_data l pd = (r, sent) ->
  Forall (fun p => exists s, s ∈ l /\ pd !! s = Some p) sent.
Proof.
  revert r sent. induction l as [|s l IH]; intros r sent; simpl.
  - intros [= <- <-]. constructor.
  - destruct (pd !! s) as [p|] eqn:Ep.
    + destruct (resend_dropped_data l pd) as [r0 sent0] eqn:E.
      intros [= <- <-]. constructor.
      * exists s. split; [left|exact Ep].
      * eapply Forall_impl; [apply (IH _ _ eq_refl)|].
        intros q (s' & Hin & Hq). exists s'. split; [right; exact Hin|exact Hq].
    + intros [= <- <-]. constructor.
Qed.

(** Retransmission of a NACK whose sequences are all cached: the cached
    packets, in the order of the NACK. *)
Lemma resend_dropped_data_Ok (l : list Z) (pd : gmap Z bytes) :
  Forall (fun s => is_Some (pd !! s)) l ->
  resend_dropped_data l pd
  = (Ok tt, map (fun s => default [] (pd !! s)) l).
Proof.
  induction 1 as [|s l [p Hp] _ IH]; simpl; [reflexivity|].
  rewrite Hp, IH. reflexivity.
Qed.

(** The loop of [send_file] is total, every datagram it sends comes from
    the packet dictionary, and the list it builds holds, in order, the
    decodings of the frames received, closed by the sentinel when it gives
    up; it stops at the first empty one. *)
Lemma nack_loop_inv (fuel : nat) (rx : list rx_event) (pd : gmap Z bytes)
    (pivot : Z) (losses : list (list Z)) st ls sent :
  (length rx < fuel)%nat ->
  RUDP.nack_loop fuel rx pd pivot losses = (st, ls, sent) ->
  st <> RUDP.OUT_OF_FUEL /\
  Forall (fun p => exists s, pd !! s = Some p) sent /\
  exists rounds,
    ls = losses ++ rounds ++ sentinel st /\
    Forall2 (fun l d => array_frombytes d = Ok l) rounds
            (take (length rounds) (frames rx)) /\
    Forall (fun l => l <> []) (if decide (st = RUDP.DONE)
                               then removelast rounds else rounds) /\
    (st = RUDP.DONE -> last rounds = Some []).
Proof.
  revert rx pivot losses st ls sent.
  induction fuel as [|fuel IH]; intros rx pivot losses st ls sent Hf; [lia|].
  destruct (process_ack rx pd pivot) as [[r rx'] sent1] eqn:E.
  pose proof E as Hinv.
  apply process_ack_inv in Hinv as (Hlen & Hsent1 & res & -> & Hres).
  rewrite (nack_loop_unfold _ _ _ _ _ _ _ _ E).
  assert (Forall (fun p => exists s, pd !! s = Some p) sent1) as Hs1.
  { eapply Forall_impl; [exact Hsent1|]. intros p Hp. exists pivot. exact Hp. }
  destruct res as [l|e].
  - destruct (Hres l eq_refl) as (d & Hd & Hfr & Hlt).
    destruct (len l =? 0) eqn:El.
    + intros [= <- <- <-]. apply len_0_nil in El. subst l.
      split; [discriminate|]. split; [exact Hs1|].
      exists [[]]. simpl. rewrite Hfr. simpl.
      repeat split; auto.
    + apply len_pos_cons in El.
      destruct (resend_dropped_data l pd) as [[[]|e] sent2] eqn:Er.
      * destruct (RUDP.nack_loop fuel rx' pd (max_list_Z l) (losses ++ [l]))
          as [[st' ls'] sent3] eqn:En.
        intros [= <- <- <-].
        apply IH in En as (Hst & Hs3 & rounds & -> & Hf2 & Hne & Hlast);
          [|lia].
        split; [exact Hst|]. split.
        { apply Forall_app. split; [exact Hs1|]. apply Forall_app. split.
          - eapply Forall_impl; [apply (resend_dropped_data_sent _ _ _ _ Er)|].
            intros p (s & _ & Hp). eauto.
          - exact Hs3. }
        exists (l :: rounds). rewrite <- app_assoc. simpl. rewrite Hfr. simpl.
        split; [reflexivity|]. split; [constructor; auto|].
        split.
        { destruct (decide (st' = RUDP.DONE)) as [Hd'|Hd'].
          - specialize (Hlast Hd'). destruct rounds as [|l0 rounds];
              [discriminate|]. constructor; auto.
          - constructor; auto. }
        { intros Hd'. specialize (Hlast Hd').
          destruct rounds; [discriminate|exact Hlast]. }
      * intros [= <- <- <-]. split; [discriminate|]. split.
        { apply Forall_app. split; [exact Hs1|].
          eapply Forall_impl; [apply (resend_dropped_data_sent _ _ _ _ Er)|].
          intros p (s & _ & Hp). eauto. }
        exists [l]. simpl. rewrite Hfr. simpl.
        repeat split; auto. discriminate.
  - assert ((st, ls, sent) =
            (match e with
             | socket_timeout => RUDP.FAILED
             | _ => RUDP.RAISED e
             end,
             losses ++ sentinel (match e with
                                 | socket_timeout => RUDP.FAILED
                                 | _ => RUDP.RAISED e
                                 end), sent1) ->
            st <> RUDP.OUT_OF_FUEL /\
            Forall (fun p => exists s, pd !! s = Some p) sent /\
            exists rounds, ls = losses ++ rounds ++ sentinel st /\
              Forall2 (fun l d => array_frombytes d = Ok l) rounds
                      (take (length rounds) (frames rx)) /\
              Forall (fun l => l <> [])
                     (if decide (st = RUDP.DONE)
                      then removelast rounds else rounds) /\
              (st = RUDP.DONE -> last rounds = Some [])) as Hk.
    { intros [= -> -> ->]. split; [destruct e; discriminate|].
      split; [exact Hs1|]. exists []. simpl.
      repeat split; auto; try constructor.
      - destruct e; simpl; constructor.
      - destruct e; discriminate. }
    intros H. apply Hk. rewrite <- H.
    destruct e; simpl; rewrite ?app_nil_r; reflexivity.
Qed.

(** ** The chunker and the initial pass *)

(** A file and a chunk size that fits the 32-bit header field. *)
Section Frames.

Variables (content : bytes) (cs : Z).
Hypothesis Hcs : 0 < cs < 2 ^ 32.

(** The initial pass over [n] sequences from [k] on, the file being read up
    to byte [k * cs]: it sends their frames in ascending order and caches
    each under its sequence. *)
Lemma burst_spec :
  forall (n : nat) (k : Z) (pd : gmap Z bytes),
    0 <= k -> k + Z.of_nat n <= 2 ^ 32 ->
    exists pd',
      RUDP.burst (seqZ k (Z.of_nat n)) cs
                 (drop (Z.to_nat (k * cs)) content) pd
      = (Ok pd', map (frame_of content cs) (seqZ k (Z.of_nat n)))
      /\ forall s, pd' !! s =
           if decide (k <= s < k + Z.of_nat n)
           then Some (frame_of content cs s) else pd !! s.
Proof.
  induction n as [|n IH]; intros k pd Hk Hn.
  - rewrite seqZ_nil by lia. exists pd. split; [reflexivity|].
    intros s. destruct (decide _); [lia|reflexivity].
  - rewrite seqZ_cons by lia.
    replace (Z.pred (Z.of_nat (S n))) with (Z.of_nat n) by lia.
    cbn [RUDP.burst map]. unfold RUDP.file_read.
    destruct (Z.ltb_spec cs 0) as [|_]; [lia|].
    destruct (pack_II_is_Some k cs ltac:(lia) ltac:(lia)) as [h Hh].
    rewrite Hh. rewrite drop_drop.
    replace (Z.to_nat (k * cs) + Z.to_nat cs)%nat
      with (Z.to_nat (Z.succ k * cs)) by nia.
    assert (h ++ take (Z.to_nat cs) (drop (Z.to_nat (k * cs)) content)
            = frame_of content cs k) as Hfr.
    { unfold frame_of, chunk_of, slice. rewrite Hh. reflexivity. }
    rewrite Hfr.
    destruct (IH (Z.succ k) (<[k := frame_of content cs k]> pd)
                 ltac:(lia) ltac:(lia)) as (pd' & -> & Hpd').
    exists pd'. split; [reflexivity|].
    intros s. rewrite Hpd'.
    destruct (decide (Z.succ k <= s < Z.succ k + Z.of_nat n)),
             (decide (k <= s < k + Z.of_nat (S n))); try lia; auto.
    + destruct (decide (s = k)) as [->|Hne].
      * apply lookup_insert_eq.
      * lia.
    + apply lookup_insert_ne. lia.
Qed.

(** The Receiver reads a frame of the Sender back as it was built. *)
Lemma frame_of_decode (s : Z) :
  0 <= s < 2 ^ 32 ->
  let d := frame_of content cs s in
  take (Z.to_nat (cs + 8)) d = d /\
  unpack_II (take 8 d) = Some (s, cs) /\
  slice 8 cs d = chunk_of content cs s.
Proof.
  intros Hs d. subst d. unfold frame_of.
  destruct (pack_II_is_Some s cs Hs ltac:(lia)) as [h Hh]. rewrite Hh.
  destruct (unpack_pack_II s cs h (chunk_of content cs s) Hh)
    as (Hlen & Hun & _).
  simpl default.
  assert (length (chunk_of content cs s) <= Z.to_nat cs)%nat as Hc.
  { unfold chunk_of, slice. rewrite length_take. lia. }
  split; [|split].
  - apply take_ge. rewrite length_app. lia.
  - exact Hun.
  - unfold slice at 1. change (Z.to_nat 8) with 8%nat.
    rewrite drop_app_length' by auto. apply take_ge. exact Hc.
Qed.

(** Frames of different sequences differ. *)
Lemma frame_of_inj (s s' : Z) :
  0 <= s < 2 ^ 32 -> 0 <= s' < 2 ^ 32 ->
  frame_of content cs s = frame_of content cs s' -> s = s'.
Proof.
  intros Hs Hs' Heq.
  destruct (frame_of_decode s Hs) as (_ & H1 & _).
  destruct (frame_of_decode s' Hs') as (_ & H2 & _).
  rewrite Heq in H1. congruence.
Qed.

(** Among the frames of the initial pass, the frame of a sequence occurs
    once. *)
Lemma emitted_frames (n : nat) (p : Z) :
  Z.of_nat n <= 2 ^ 32 -> 0 <= p < 2 ^ 32 ->
  emitted (frame_of content cs p)
          (map SendTo (map (frame_of content cs) (seqZ 0 (Z.of_nat n))))
  = if decide (p < Z.of_nat n) then 1%nat else 0%nat.
Proof.
  unfold emitted. induction n as [|n IH]; intros Hn Hp.
  - rewrite seqZ_nil by lia. simpl. destruct (decide _); [lia|reflexivity].
  - rewrite seqZ_S, !map_app, count_occ_app, IH by lia.
    cbn [map]. rewrite Z.add_0_l.
    destruct (decide (Z.of_nat n = p)) as [<-|Hne].
    + rewrite count_occ_cons_eq by reflexivity. rewrite count_occ_nil.
      destruct (decide (Z.of_nat n < Z.of_nat n)),
               (decide (Z.of_nat n < Z.of_nat (S n))); lia.
    + rewrite count_occ_cons_neq, count_occ_nil.
      * destruct (decide (p < Z.of_nat n)), (decide (p < Z.of_nat (S n)));
          lia.
      * intros [= Heq]. apply frame_of_inj in Heq; lia.
Qed.

End Frames.

(** [math.ceil] of a quotient of a size by a positive chunk size. *)
Lemma ceil_div_pos (a b : Z) :
  0 <= a -> 0 < b ->
  0 <= ceil_div a b /\ a <= ceil_div a b * b /\ (ceil_div a b - 1) * b < a + b
  /\ (0 < a -> (ceil_div a b - 1) * b < a).
Proof.
  intros Ha Hb. unfold ceil_div.
  pose proof (Z.div_mod (- a) b ltac:(lia)) as H.
  pose proof (Z.mod_pos_bound (- a) b Hb) as Hm. nia.
Qed.

Lemma ceil_div_neg (a b : Z) : 0 <= a -> b < 0 -> ceil_div a b <= 0.
Proof.
  intros Ha Hb. unfold ceil_div.
  pose proof (Z.div_mod (- a) b ltac:(lia)) as H.
  pose proof (Z.mod_neg_bound (- a) b Hb) as Hm. nia.
Qed.

(** The chunks, in sequence order, make up the file. *)
Lemma concat_chunks_from (content : bytes) (cs : Z) :
  0 < cs ->
  forall (n : nat) (k : Z), 0 <= k ->
    concat (map (chunk_of content cs) (seqZ k (Z.of_nat n)))
    = take (n * Z.to_nat cs) (drop (Z.to_nat (k * cs)) content).
Proof.
  intros Hcs. induction n as [|n IH]; intros k Hk.
  - rewrite seqZ_nil by lia. reflexivity.
  - rewrite seqZ_cons by lia.
    replace (Z.pred (Z.of_nat (S n))) with (Z.of_nat n) by lia.
    cbn [map concat]. rewrite IH by lia.
    unfold chunk_of at 1. unfold slice.
    replace (Z.to_nat (Z.succ k * cs))
      with (Z.to_nat (k * cs) + Z.to_nat cs)%nat by nia.
    rewrite <- drop_drop, take_take_drop. f_equal; lia.
Qed.

Lemma concat_chunks (content : bytes) (cs : Z) :
  0 < cs ->
  concat (map (chunk_of content cs) (seqZ 0 (ceil_div (len content) cs)))
  = content.
Proof.
  intros Hcs.
  destruct (ceil_div_pos (len content) cs ltac:(unfold len; lia) Hcs)
    as (H0 & Hcover & _).
  rewrite <- (Z2Nat.id (ceil_div (len content) cs)) by lia.
  rewrite concat_chunks_from by lia. simpl. rewrite drop_0.
  apply take_ge. unfold len in *. nia.
Qed.

(** A map whose keys are exactly [0 .. n-1] has [n] entries. *)
Lemma size_keys_range {A} (m : gmap Z A) (n : Z) :
  (forall s, is_Some (m !! s) <-> 0 <= s < n) ->
  size m = Z.to_nat n.
Proof.
  intros H. rewrite <- (size_dom (D := gset Z)).
  assert (dom m = list_to_set (seqZ 0 n)) as ->.
  { apply set_eq. intros s.
    rewrite elem_of_dom, elem_of_list_to_set, elem_of_seqZ, H. lia. }
  rewrite size_list_to_set by apply NoDup_seqZ. apply length_seqZ.
Qed.

(** The initial pass succeeds whenever the header could be packed: it sends
    the frames of [0 .. total_chunks-1] in ascending order and caches each
    under its sequence. *)
Lemma burst_total (content : bytes) (bs : Z) :
  let cs := bs - REDUNDANCY_SIZE in
  let total := ceil_div (len content) cs in
  cs <> 0 -> 0 <= bs < 2 ^ 32 -> 0 <= total < 2 ^ 32 ->
  exists pd,
    RUDP.burst (seqZ 0 total) cs content ∅
    = (Ok pd, map (frame_of content cs) (seqZ 0 total))
    /\ (forall s, pd !! s = if decide (0 <= s < total)
                            then Some (frame_of content cs s) else None)
    /\ Z.of_nat (size pd) = total
    /\ (0 < total -> 0 < cs).
Proof.
  intros cs total Hcs Hbs Htot. unfold REDUNDANCY_SIZE in cs.
  assert (exists pd,
    RUDP.burst (seqZ 0 total) cs content ∅
    = (Ok pd, map (frame_of content cs) (seqZ 0 total))
    /\ (forall s, pd !! s = if decide (0 <= s < total)
                            then Some (frame_of content cs s) else None)
    /\ (0 < total -> 0 < cs)) as (pd & Hb & Hpd & Hpos).
  { destruct (Z.lt_trichotomy cs 0) as [Hneg|[H0|Hpos]]; [|lia|].
    - pose proof (ceil_div_neg (len content) cs ltac:(unfold len; lia) Hneg).
      assert (total = 0) as Ht by (subst total; lia).
      rewrite Ht, seqZ_nil by lia. exists ∅. split; [reflexivity|].
      split; [|lia]. intros s. destruct (decide _); [lia|].
      apply lookup_empty.
    - destruct (burst_spec content cs ltac:(subst cs; lia)
                  (Z.to_nat total) 0 ∅ ltac:(lia) ltac:(lia))
        as (pd & Hb & Hpd).
      rewrite Z2Nat.id in Hb, Hpd by lia. simpl in Hb. rewrite drop_0 in Hb.
      exists pd. split; [exact Hb|]. split; [|auto].
      intros s. rewrite Hpd.
      destruct (decide (0 <= s < 0 + total)), (decide (0 <= s < total));
        try lia; auto. }
  exists pd. repeat split; auto.
  rewrite (size_keys_range pd total); [lia|].
  intros s. rewrite Hpd. destruct (decide _); split; intros H;
    eauto; try lia; try (destruct H; discriminate).
Qed.

Lemma pack_II256s_Some (a b : Z) (s hdr : bytes) :
  pack_II256s a b s = Some hdr ->
  exists h, pack_II a b = Some h /\ hdr = h ++ pad256 s
            /\ length hdr = 264%nat.
Proof.
  unfold pack_II256s. destruct (pack_II a b) as [h|] eqn:E; [|discriminate].
  intros [= <-]. exists h. repeat split.
  destruct (unpack_pack_II a b h [] E) as (Hl & _).
  rewrite length_app, Hl. unfold pad256.
  rewrite length_app, length_replicate, length_take. lia.
Qed.

(** What [send_file] has done once a header frame is on the wire. *)
Lemma send_body_inv (fs : files) (name : string) (bs : Z)
    (rx : list rx_event) st ls hdr dgrams :
  RUDP.send_body fs name bs rx = (st, ls, hdr :: dgrams) ->
  let cs := bs - REDUNDANCY_SIZE in
  exists content h pd sent2,
    let total := ceil_div (len content) cs in
    fs !! name = Some content /\ cs <> 0 /\
    pack_II bs total = Some h /\
    hdr = h ++ pad256 (take 256 (list_byte_of_string name)) /\
    length hdr = 264%nat /\
    (forall s, pd !! s = if decide (0 <= s < total)
                         then Some (frame_of content cs s) else None) /\
    Z.of_nat (size pd) = total /\ (0 < total -> 0 < cs) /\
    RUDP.nack_loop (S (length rx)) rx pd (total - 1) [] = (st, ls, sent2) /\
    dgrams = map (frame_of content cs) (seqZ 0 total) ++ sent2.
Proof.
  intros H cs. unfold RUDP.send_body in H. fold cs in H.
  destruct (fs !! name) as [content|] eqn:Ef; [|discriminate].
  destruct (Z.eqb_spec cs 0) as [|Hcs]; [discriminate|].
  destruct (pack_II256s bs _ _) as [file_info|] eqn:Eh; [|discriminate].
  apply pack_II256s_Some in Eh as (h & Hh & -> & Hlen).
  destruct (unpack_pack_II _ _ _ [] Hh) as (_ & _ & Hbs & Htot).
  destruct (burst_total content bs Hcs Hbs Htot)
    as (pd & Hb & Hpd & Hsize & Hpos).
  fold cs in Hb, Hpd, Hpos. rewrite Hb in H. rewrite Hsize in H.
  destruct (RUDP.nack_loop _ _ _ _ _) as [[st' ls'] sent2] eqn:En.
  rewrite take_ge in H by lia. inversion H; subst.
  exists content, h, pd, sent2. repeat split; auto.
Qed.

(** [send_file] is total: its loop bound is never met. *)
Lemma send_file_total (fs : files) (name : string) (bs : Z)
    (rx : list rx_event) :
  RUDP.state (RUDP.send_file fs name bs rx) <> RUDP.OUT_OF_FUEL.
Proof.
  unfold RUDP.send_file.
  destruct (RUDP.send_body fs name bs rx) as [[st ls] sent] eqn:E. simpl.
  destruct sent as [|hdr dgrams].
  - unfold RUDP.send_body in E.
    destruct (fs !! name); [|inversion E; discriminate].
    destruct (_ =? 0); [inversion E; discriminate|].
    destruct (pack_II256s _ _ _); [|inversion E; discriminate].
    destruct (RUDP.burst _ _ _ _) as [[pd|e] sent].
    + destruct (RUDP.nack_loop _ _ _ _ _) as [[? ?] ?]. discriminate.
    + discriminate.
  - apply send_body_inv in E
      as (content & h & pd & sent2 & _ & _ & _ & _ & _ & _ & _ & _ & En & _).
    apply nack_loop_inv in En as (Hst & _); [exact Hst|lia].
Qed.

(** ** The Receiver *)

(** A frame the outer loop accepts starts a transfer with an empty chunk
    map, the pivot on the last sequence, and the two header fields as
    unpacked. *)
Lemma listen_Accepted (d : bytes) (t : RUDP.transfer) :
  RUDP.listen d = RUDP.Accepted t ->
  unpack_II (take 8 d) = Some (RUDP.buffer_size t, RUDP.total_chunks t)
  /\ RUDP.chunks t = ∅
  /\ RUDP.last_seq_num t = RUDP.total_chunks t - 1
  /\ RUDP.total_packets_received t = 0.
Proof.
  unfold RUDP.listen, unpack_II256s.
  destruct (Nat.eqb (length _) 264); [|discriminate].
  rewrite !take_take. cbn [Nat.min].
  destruct (unpack_II (take 8 d)) as [[a b]|]; [|discriminate].
  destruct (decode_strip _); [|discriminate].
  intros [= <-]. simpl. auto.
Qed.


(** A map with at least [n] entries, all under keys of [0 .. n-1], has an
    entry under each of them. *)
Lemma keys_complete {A} (m : gmap Z A) (n : Z) :
  (forall k, is_Some (m !! k) -> 0 <= k < n) ->
  n <= Z.of_nat (size m) ->
  forall k, 0 <= k < n -> is_Some (m !! k).
Proof.
  intros Hin Hsz k Hk.
  assert (dom m = list_to_set (seqZ 0 n)) as Hd.
  { apply set_subseteq_size_eq.
    - intros s Hs. apply elem_of_dom in Hs.
      rewrite elem_of_list_to_set, elem_of_seqZ. specialize (Hin s Hs). lia.
    - rewrite size_dom, size_list_to_set by apply NoDup_seqZ.
      rewrite length_seqZ. lia. }
  apply (elem_of_dom (D := gset Z)). rewrite Hd.
  rewrite elem_of_list_to_set, elem_of_seqZ. lia.
Qed.







(** ** The Sender, from the file to the first wait *)

(** With the file there, a chunk size other than zero and both header
    fields in range, [send_file] sends the header and the frames of
    [0 .. total_chunks-1] and enters the NACK rounds with the pivot on
    [total_chunks - 1]. *)
Lemma send_body_run (fs : files) (name : string) (bs : Z) (content : bytes)
    (rx : list rx_event) :
  let cs := bs - 8 in
  let total := ceil_div (len content) cs in
  fs !! name = Some content -> cs <> 0 ->
  0 <= bs < 2 ^ 32 -> 0 <= total < 2 ^ 32 ->
  exists h pd,
    pack_II bs total = Some h /\
    (forall s, pd !! s = if decide (0 <= s < total)
                         then Some (frame_of content cs s) else None) /\
    RUDP.send_body fs name bs rx =
      (let '(st, ls, sent2) :=
         RUDP.nack_loop (S (length rx)) rx pd (total - 1) [] in
       (st, ls,
        (h ++ pad256 (take 256 (list_byte_of_string name)))
        :: map (frame_of content cs) (seqZ 0 total) ++ sent2)).
Proof.
  intros cs total Hfs Hcs Hbs Htot.
  destruct (pack_II_is_Some bs total Hbs Htot) as [h Hh].
  destruct (burst_total content bs Hcs Hbs Htot)
    as (pd & Hb & Hpd & Hsize & _).
  exists h, pd. split; [exact Hh|]. split; [exact Hpd|].
  unfold RUDP.send_body. rewrite Hfs. unfold REDUNDANCY_SIZE in *.
  fold cs. fold total.
  destruct (Z.eqb_spec cs 0) as [|_]; [contradiction|].
  unfold pack_II256s. rewrite Hh. fold cs in Hb. fold total in Hb.
  rewrite Hb, Hsize.
  destruct (RUDP.nack_loop _ _ _ _ _) as [[st ls] sent2].
  rewrite take_ge; [reflexivity|].
  destruct (unpack_pack_II _ _ _ [] Hh) as (Hl & _).
  rewrite length_app, Hl. unfold pad256.
  rewrite length_app, length_replicate, length_take. lia.
Qed.

Lemma count_occ_replicate_eq (e : sock_event) (n : nat) :
  count_occ sock_event_eq_dec (replicate n e) e = n.
Proof.
  induction n as [|n IH]; simpl; [reflexivity|].
  destruct (sock_event_eq_dec e e); [lia|contradiction].
Qed.

(** C2. On a file whose size is not a multiple of the chunk size, the data
    frame of the last sequence declares [chunk_size] in its header while
    fewer bytes follow: here 4 declared, 3 carried. *)
Theorem C2_last_frame_declares_chunk_size :
  let d := nth 2 ex_dgrams [] in
  unpack_II (take 8 d) = Some (2, 4) /\ len (drop 8 d) = 3.
Proof. vm_compute. split; reflexivity. Qed.

(** C3, as stated, fails: after five windows without a NACK the Sender is
    still waiting, and a NACK in the sixth window completes the transfer. *)
Lemma C3_five_timeouts_do_not_fail :
  let r := RUDP.send_file ex_fs "x.bin" 12
             (replicate 5 RxTimeout ++ [RxFrame []]) in
  RUDP.state r = RUDP.DONE /\ RUDP.state r <> RUDP.FAILED /\
  RUDP.losses r = [[]] /\ ~ ([-1] ∈ RUDP.losses r).
Proof.
  vm_compute. repeat split; try discriminate.
  intros H. inversion H as [|? ? ? H']; subst. inversion H'.
Qed.

(** C3, amended. If no frame arrives in six consecutive windows on the same
    pivot, the Sender retransmits the pivot after each of the first five,
    enters FAILED after the sixth and records the sentinel [-1]; with
    nothing ever arriving on a transfer of at least one chunk, the pivot
    packet is emitted exactly 6 times and the list that [send_file] returns
    ends with [-1]. *)
Theorem C3_six_timeouts_fail :
  (forall (fuel : nat) (rx : list rx_event) (pd : gmap Z bytes) (pivot : Z)
          (p : bytes) (losses : list (list Z)),
     pd !! pivot = Some p ->
     Forall (fun ev => ev = RxTimeout) (take 6 rx) ->
     RUDP.nack_loop (S fuel) rx pd pivot losses
     = (RUDP.FAILED, losses ++ [[-1]], replicate 5 p)) /\
  (forall (fs : files) (name : string) (bs : Z) (content : bytes)
          (rx : list rx_event),
     fs !! name = Some content -> content <> [] ->
     8 < bs < 2 ^ 32 -> ceil_div (len content) (bs - 8) < 2 ^ 32 ->
     Forall (fun ev => ev = RxTimeout) rx ->
     let r := RUDP.send_file fs name bs rx in
     let pivot := ceil_div (len content) (bs - 8) - 1 in
     RUDP.state r = RUDP.FAILED /\
     last (RUDP.losses r) = Some [-1] /\
     emitted (frame_of content (bs - 8) pivot) (RUDP.sock r) = 6%nat).
Proof.
  assert (forall (fuel : nat) (rx : list rx_event) (pd : gmap Z bytes)
                 (pivot : Z) (p : bytes) (losses : list (list Z)),
     pd !! pivot = Some p ->
     Forall (fun ev => ev = RxTimeout) (take 6 rx) ->
     RUDP.nack_loop (S fuel) rx pd pivot losses
     = (RUDP.FAILED, losses ++ [[-1]], replicate 5 p)) as Hround.
  { intros fuel rx pd pivot p losses Hp Hall.
    rewrite (nack_loop_unfold _ _ _ _ _ _ _ _
               (process_ack_timeouts rx pd pivot p Hp Hall)).
    reflexivity. }
  split; [exact Hround|].
  intros fs name bs content rx Hfs Hne Hbs Htot Hall r pivot.
  set (cs := bs - 8) in *. set (total := ceil_div (len content) cs) in *.
  destruct (ceil_div_pos (len content) cs ltac:(unfold len; lia)
              ltac:(subst cs; lia)) as (H0 & Hcover & _).
  assert (0 < len content) as Hlen.
  { unfold len. destruct content; [contradiction|simpl; lia]. }
  assert (1 <= total) as H1 by (fold total in Hcover; nia).
  destruct (send_body_run fs name bs content rx Hfs ltac:(lia) ltac:(lia)
              ltac:(fold cs; fold total; lia)) as (h & pd & Hh & Hpd & Hrun).
  fold cs in Hpd, Hrun. fold total in Hh, Hpd, Hrun.
  assert (pd !! pivot = Some (frame_of content cs pivot)) as Hpivot.
  { rewrite Hpd. subst pivot. destruct (decide _); [reflexivity|lia]. }
  rewrite (Hround _ rx pd (total - 1) _ [] Hpivot) in Hrun
    by (apply Forall_take; exact Hall).
  subst r. unfold RUDP.send_file. rewrite Hrun.
  cbv beta iota zeta. cbn [RUDP.state RUDP.losses RUDP.sock].
  split; [reflexivity|]. split; [reflexivity|].
  set (p := frame_of content cs pivot).
  assert (h ++ pad256 (take 256 (list_byte_of_string name)) <> p) as Hhdr.
  { intros Heq.
    destruct (unpack_pack_II _ _ _
                (pad256 (take 256 (list_byte_of_string name))) Hh)
      as (_ & Hu1 & _).
    destruct (frame_of_decode content cs ltac:(subst cs; lia) pivot
                ltac:(subst pivot; lia)) as (_ & Hu2 & _).
    fold p in Hu2. rewrite Heq in Hu1. rewrite Hu1 in Hu2.
    injection Hu2 as E1 E2. subst pivot cs. lia. }
  unfold emitted. cbn [map].
  rewrite count_occ_cons_neq by discriminate.
  rewrite count_occ_app.
  rewrite count_occ_cons_neq by (intros [= Heq]; contradiction).
  rewrite map_app, count_occ_app.
  pose proof (emitted_frames content cs ltac:(subst cs; lia)
                (Z.to_nat total) pivot ltac:(lia) ltac:(subst pivot; lia))
    as He.
  rewrite Z2Nat.id in He by lia. unfold emitted in He. fold p in He.
  rewrite He. destruct (decide (pivot < total)); [|subst pivot; lia].
  change (map SendTo (replicate 5 p)) with (replicate 5 (SendTo p)).
  rewrite count_occ_replicate_eq.
  rewrite count_occ_cons_neq by discriminate. reflexivity.
Qed.

Lemma C3_witness :
  RUDP.nack_loop 1 (replicate 6 RxTimeout) ex_pd 2 []
  = (RUDP.FAILED, [[-1]], replicate 5 (nth 2 ex_dgrams [])) /\
  let r := RUDP.send_file ex_fs "x.bin" 12 (replicate 9 RxTimeout) in
  RUDP.state r = RUDP.FAILED /\
  last (RUDP.losses r) = Some [-1] /\
  emitted (frame_of ex_content 4 2) (RUDP.sock r) = 6%nat.
Proof.
  split.
  - apply (proj1 C3_six_timeouts_fail 0%nat (replicate 6 RxTimeout) ex_pd 2
             (nth 2 ex_dgrams []) []).
    + reflexivity.
    + repeat constructor.
  - apply (proj2 C3_six_timeouts_fail ex_fs "x.bin" 12 ex_content
             (replicate 9 RxTimeout)).
    + reflexivity.
    + discriminate.
    + lia.
    + vm_compute. reflexivity.
    + repeat constructor.
Defined.

(** ** A source file that is not there *)

(** C4, as stated, fails: on a missing source file the socket has been
    created (and is closed again), and the call returns the empty list. *)
Lemma C4_missing_file_opens_socket :
  let r := RUDP.send_file ∅ "missing.bin" 1480 [] in
  RUDP.sock r = [SockOpen; SockClose] /\ RUDP.losses r = [] /\
  ~ (SockOpen ∉ RUDP.sock r).
Proof.
  vm_compute. repeat split. intros H. apply H. left.
Qed.

(** C4, amended. For every call of [send_file] whose source file does not
    exist, the Sender creates its socket, raises [FileNotFoundError] before
    any frame is sent, and closes the socket. *)
Theorem C4_missing_file (fs : files) (name : string) (bs : Z)
    (rx : list rx_event) :
  fs !! name = None ->
  let r := RUDP.send_file fs name bs rx in
  RUDP.sock r = [SockOpen; SockClose] /\
  RUDP.state r = RUDP.RAISED FileNotFoundError.
Proof.
  intros Hfs. unfold RUDP.send_file, RUDP.send_body. rewrite Hfs.
  split; reflexivity.
Qed.

Lemma C4_witness :
  let r := RUDP.send_file ex_fs "y.bin" 1480 [RxFrame []] in
  RUDP.sock r = [SockOpen; SockClose] /\
  RUDP.state r = RUDP.RAISED FileNotFoundError.
Proof. apply C4_missing_file. reflexivity. Defined.

(** ** Finalization *)

(** Whatever the transfer and the disk, the Receiver writes to
    [target_dir/filename] itself. *)
Lemma finalize_overwrites (target_dir : string) (t : RUDP.transfer)
    (disk : files) :
  RUDP.finalize target_dir t disk
  = <[target_dir +:+ "/" +:+ RUDP.filename t
      := RUDP.assemble (RUDP.total_chunks t) (RUDP.chunks t)]> disk.
Proof. reflexivity. Qed.

(** A path that is free is kept as it is. *)
Lemma make_new_filename_free (disk : files) (path : string) :
  disk !! path = None -> make_new_filename disk path = path.
Proof. intros H. unfold make_new_filename. rewrite H. reflexivity. Qed.

(** C5. Two transfers of [x.bin] in a row, with different contents: the
    second finds [received/x.bin] on disk, [make_new_filename] answers
    [received/x(1).bin], and the Receiver opens [received/x.bin] all the
    same: one file is left, holding the second content. *)
Theorem C5_second_transfer_overwrites :
  let '(_, disk, _) :=
    RUDP.start_server "received" (map RxFrame (ex_sent ++ ex2_sent)) ∅ in
  make_new_filename {[ "received/x.bin"%string := ex_content ]}
                    "received/x.bin" = "received/x(1).bin"%string /\
  disk !! "received/x.bin"%string = Some ex2_content /\
  disk !! "received/x(1).bin"%string = None /\
  size disk = 1%nat.
Proof. vm_compute. repeat split. Qed.

(** ** Header frames *)

(** A first frame of fewer than 264 bytes makes [struct.unpack] raise
    outside any [try]. *)
Lemma listen_short (d : bytes) :
  (length d < 264)%nat -> RUDP.listen d = RUDP.Rejected struct_error.
Proof.
  intros H. unfold RUDP.listen, unpack_II256s.
  rewrite !length_take.
  destruct (Nat.eqb_spec (264 `min` (512 `min` length d)) 264); [lia|].
  reflexivity.
Qed.

(** A frame whose file name field does not decode is skipped: the server
    goes on with the next frame as if it had not come. *)
Lemma listen_bad_name (d : bytes) :
  (264 <= length d)%nat -> utf8_valid (slice 8 256 d) = false ->
  RUDP.listen d = RUDP.Ignored.
Proof.
  intros Hlen Hbad. unfold RUDP.listen.
  assert (take 264 (take 512 d) = take 264 d) as ->
    by (rewrite take_take; reflexivity).
  unfold unpack_II256s. rewrite length_take_le, Nat.eqb_refl by lia.
  rewrite take_take. cbn [Nat.min].
  assert (drop 8 (take 264 d) = slice 8 256 d) as ->.
  { unfold slice. symmetry. apply (take_drop_commute d 256 8). }
  destruct (unpack_II (take 8 d)) as [[a b]|] eqn:E.
  - unfold decode_strip. rewrite Hbad. reflexivity.
  - exfalso. destruct_prefix d 8%nat; simpl in Hlen; try lia. discriminate.
Qed.

Lemma start_server_Ignored (target_dir : string) (d : bytes)
    (rx : list rx_event) (disk : files) :
  RUDP.listen d = RUDP.Ignored ->
  RUDP.start_server target_dir (RxFrame d :: rx) disk
  = RUDP.start_server target_dir rx disk.
Proof.
  intros H. unfold RUDP.start_server. cbn [length RUDP.serve].
  rewrite H. reflexivity.
Qed.

Lemma start_server_Rejected (target_dir : string) (d : bytes)
    (rx : list rx_event) (disk : files) (e : exn) :
  RUDP.listen d = RUDP.Rejected e ->
  RUDP.start_server target_dir (RxFrame d :: rx) disk
  = (RUDP.DIED e, disk, []).
Proof.
  intros H. unfold RUDP.start_server. cbn [length RUDP.serve].
  rewrite H. reflexivity.
Qed.

(** C6. A first frame that is shorter than a header (here the 11-byte
    data frame of the last chunk, as a late retransmission would bring)
    ends the server loop with [struct.error]; and so it does when it
    comes after a completed transfer. *)
Theorem C6_short_first_frame_ends_server :
  RUDP.start_server "received" [RxFrame (nth 2 ex_dgrams [])] ∅
  = (RUDP.DIED struct_error, ∅, []) /\
  (RUDP.start_server "received"
     (map RxFrame (ex_sent ++ [nth 2 ex_dgrams []])) ∅).1.1
  = RUDP.DIED struct_error.
Proof. vm_compute. split; reflexivity. Qed.

(** ** The server loop is total *)

Lemma collect_length (t : RUDP.transfer) (rx : list rx_event) r rx' sent :
  RUDP.collect t rx = (r, rx', sent) -> (length rx' <= length rx)%nat.
Proof.
  revert t r rx' sent.
  induction rx as [|[|d] rx IH]; intros t r rx' sent; cbn [RUDP.collect];
    destruct (_ <? _); try (intros [= <- <- <-]; simpl; lia).
  destruct (RUDP.collecting_body t d) as [t1 sent1|e|e].
  - destruct (RUDP.collect t1 rx) as [[r1 rx1] sent2] eqn:E.
    intros [= <- <- <-]. apply IH in E. simpl. lia.
  - intros [= <- <- <-]. simpl. lia.
  - intros [= <- <- <-]. simpl. lia.
Qed.

Lemma serve_total (fuel : nat) (target_dir : string) (rx : list rx_event)
    (disk : files) :
  (length rx <= fuel)%nat ->
  (RUDP.serve fuel target_dir rx disk).1.1 <> RUDP.SERVE_FUEL.
Proof.
  revert rx disk.
  induction fuel as [|fuel IH]; intros [|ev rx] disk Hlen; simpl in Hlen;
    try lia; try discriminate.
  cbn [RUDP.serve]. destruct ev as [|d]; [apply IH; lia|].
  destruct (RUDP.listen d) as [t| |e]; [|apply IH; lia|discriminate].
  destruct (RUDP.collect t rx) as [[[t'|e|e|t'] rx'] sent] eqn:E;
    try discriminate; apply collect_length in E.
  - specialize (IH rx' (RUDP.finalize target_dir t' disk) ltac:(lia)).
    destruct (RUDP.serve fuel target_dir rx' _) as [[e1 d1] s1]. exact IH.
  - specialize (IH rx' disk ltac:(lia)).
    destruct (RUDP.serve fuel target_dir rx' _) as [[e1 d1] s1]. exact IH.
Qed.

(** [start_server] is total on every receive list. *)
Lemma start_server_total (target_dir : string) (rx : list rx_event)
    (disk : files) :
  (RUDP.start_server target_dir rx disk).1.1 <> RUDP.SERVE_FUEL.
Proof. apply serve_total. lia. Qed.

(** ** Pivots and NACK rounds *)

Lemma max_list_Z_spec (l : list Z) :
  l <> [] -> max_list_Z l ∈ l /\ forall s, s ∈ l -> s <= max_list_Z l.
Proof.
  destruct l as [|x l]; [contradiction|]. intros _. unfold max_list_Z.
  induction l as [|y l [IHin IHmax]]; simpl.
  - split; [left|]. intros s Hs. apply list_elem_of_singleton in Hs. lia.
  - split.
    + destruct (Z.max_spec y (foldr Z.max x l)) as [[_ ->]|[_ ->]].
      * apply elem_of_cons in IHin as [->|Hin]; [left|right; right; exact Hin].
      * right. left.
    + intros s Hs.
      assert (s = y \/ s ∈ x :: l) as [->|Hs'].
      { apply elem_of_cons in Hs as [->|Hs]; [right; left|].
        apply elem_of_cons in Hs as [->|Hs]; [left; reflexivity|].
        right. right. exact Hs. }
      * lia.
      * specialize (IHmax s Hs'). lia.
Qed.

(** The list of missing sequences holds exactly the sequences of
    [0 .. total_chunks-1] that are not keys of the chunk map. *)
Lemma elem_of_missing (total : Z) (chunks : gmap Z bytes) (s : Z) :
  s ∈ RUDP.missing total chunks <-> 0 <= s < total /\ chunks !! s = None.
Proof.
  unfold RUDP.missing.
  rewrite list_elem_of_In, filter_In, <- list_elem_of_In, elem_of_seqZ.
  rewrite bool_decide_eq_true. intuition lia.
Qed.

(** The first frame of a receive list ends the wait of [process_ack]. *)
Lemma process_ack_frame (d : bytes) (rx : list rx_event)
    (pd : gmap Z bytes) (pivot : Z) :
  process_ack (RxFrame d :: rx) pd pivot
  = (Some (array_frombytes (take (Z.to_nat (KB * 32)) d)), rx, []).
Proof. apply process_ack_loop_frame. Qed.

(** C7. Both peers start with the pivot on [total_chunks - 1].  When the
    sequence of a data frame is the Receiver's pivot, the Receiver computes
    the sequences of [0, total_chunks) that are not keys of the chunk map,
    sends a NACK whose entries are exactly these and, if there are any,
    moves its pivot to the largest.  After a non-empty NACK, the Sender
    moves its pivot to the largest sequence listed and retransmits exactly
    the listed packets from the packet dictionary, in the order of the
    NACK. *)
Theorem C7_pivot_rounds :
  (forall (d : bytes) (t : RUDP.transfer),
     RUDP.listen d = RUDP.Accepted t ->
     RUDP.last_seq_num t = RUDP.total_chunks t - 1) /\
  (forall (fs : files) (name : string) (bs : Z) (content : bytes)
          (rx : list rx_event),
     let total := ceil_div (len content) (bs - 8) in
     fs !! name = Some content -> bs - 8 <> 0 ->
     0 <= bs < 2 ^ 32 -> 0 <= total < 2 ^ 32 ->
     exists hdr pd,
       (forall s, pd !! s = if decide (0 <= s < total)
                            then Some (frame_of content (bs - 8) s)
                            else None) /\
       RUDP.send_body fs name bs rx =
         (let '(st, ls, sent2) :=
            RUDP.nack_loop (S (length rx)) rx pd (total - 1) [] in
          (st, ls,
           hdr :: map (frame_of content (bs - 8)) (seqZ 0 total) ++ sent2)))
  /\
  (forall (t : RUDP.transfer) (d : bytes) (seq_num n : Z),
     let data := take (Z.to_nat (RUDP.buffer_size t)) d in
     let chunks' := <[seq_num := slice 8 n data]> (RUDP.chunks t) in
     let missed := RUDP.missing (RUDP.total_chunks t) chunks' in
     RUDP.total_chunks t <= 2 ^ 31 ->
     unpack_II (take 8 data) = Some (seq_num, n) ->
     seq_num = RUDP.last_seq_num t ->
     (forall s, s ∈ missed <->
                0 <= s < RUDP.total_chunks t /\ chunks' !! s = None) /\
     exists frame t',
       RUDP.collecting_body t d = RUDP.Continue t' [frame] /\
       array_frombytes frame = Ok missed /\
       RUDP.chunks t' = chunks' /\
       (missed <> [] ->
        RUDP.last_seq_num t' = max_list_Z missed /\
        max_list_Z missed ∈ missed /\
        forall s, s ∈ missed -> s <= max_list_Z missed)) /\
  (forall (fuel : nat) (d : bytes) (rx : list rx_event) (pd : gmap Z bytes)
          (pivot : Z) (losses : list (list Z)) (l : list Z),
     array_frombytes (take (Z.to_nat (KB * 32)) d) = Ok l ->
     l <> [] ->
     Forall (fun s => is_Some (pd !! s)) l ->
     RUDP.nack_loop (S fuel) (RxFrame d :: rx) pd pivot losses =
       (let '(st, ls, sent) :=
          RUDP.nack_loop fuel rx pd (max_list_Z l) (losses ++ [l]) in
        (st, ls, map (fun s => default [] (pd !! s)) l ++ sent))).
Proof.
  split; [|split; [|split]].
  - intros d t H. apply listen_Accepted in H. tauto.
  - intros fs name bs content rx total Hfs Hcs Hbs Htot.
    destruct (send_body_run fs name bs content rx Hfs Hcs Hbs Htot)
      as (h & pd & _ & Hpd & Hrun).
    eauto.
  - intros t d seq_num n data chunks' missed Htot Hun Hpivot.
    split; [apply elem_of_missing|].
    assert (Forall (fun s => - 2 ^ 31 <= s < 2 ^ 31) missed) as Hfit.
    { apply Forall_forall. intros s Hs. apply elem_of_missing in Hs. lia. }
    destruct (array_tobytes_Ok missed Hfit) as [frame Hframe].
    unfold RUDP.collecting_body. cbv zeta.
    change (Z.to_nat REDUNDANCY_SIZE) with 8%nat. fold data. rewrite Hun.
    rewrite <- Hpivot, Z.eqb_refl. unfold REDUNDANCY_SIZE.
    fold chunks'. fold missed. unfold send_ack. rewrite Hframe.
    eexists _, _. split; [reflexivity|].
    split; [apply array_roundtrip, Hframe|]. split; [reflexivity|].
    intros Hne. cbn [RUDP.last_seq_num].
    destruct (Z.gtb_spec (len missed) 0) as [_|Hle].
    + split; [reflexivity|]. apply max_list_Z_spec, Hne.
    + exfalso. destruct missed; [contradiction|]. unfold len in Hle.
      simpl in Hle. lia.
  - intros fuel d rx pd pivot losses l Hd Hne Hall.
    rewrite (nack_loop_unfold _ _ _ _ _ _ _ _ (process_ack_frame d rx pd pivot)).
    rewrite Hd.
    destruct (len l =? 0) eqn:El; [apply len_0_nil in El; contradiction|].
    rewrite resend_dropped_data_Ok by exact Hall.
    destruct (RUDP.nack_loop _ _ _ _ _) as [[st ls] sent]. reflexivity.
Qed.

Lemma C7_witness :
  RUDP.last_seq_num ex_t0 = 2 /\
  (exists hdr pd,
     RUDP.send_body ex_fs "x.bin" 12 [] =
       (let '(st, ls, sent2) := RUDP.nack_loop 1 [] pd 2 [] in
        (st, ls, hdr :: map (frame_of ex_content 4) (seqZ 0 3) ++ sent2))) /\
  (exists frame t',
     RUDP.collecting_body ex_t0 (nth 2 ex_dgrams []) = RUDP.Continue t' [frame]
     /\ array_frombytes frame = Ok [0; 1] /\ RUDP.last_seq_num t' = 1) /\
  RUDP.nack_loop 1 [RxFrame ex_nack] ex_pd 2 [] =
    (let '(st, ls, sent) := RUDP.nack_loop 0 [] ex_pd 1 [[0; 1]] in
     (st, ls, [nth 0 ex_dgrams []; nth 1 ex_dgrams []] ++ sent)).
Proof.
  destruct C7_pivot_rounds as (Hstart_r & Hstart_s & Hrecv & Hsend).
  split; [|split; [|split]].
  - apply (Hstart_r ex_hdr ex_t0). reflexivity.
  - destruct (Hstart_s ex_fs "x.bin" 12 ex_content [] eq_refl
                ltac:(discriminate) ltac:(lia) ltac:(vm_compute; split; congruence))
      as (hdr & pd & _ & Hrun).
    exists hdr, pd. exact Hrun.
  - destruct (Hrecv ex_t0 (nth 2 ex_dgrams []) 2 4
                ltac:(vm_compute; congruence) eq_refl eq_refl)
      as (_ & frame & t' & Hbody & Hframe & _ & Hpivot).
    exists frame, t'. split; [exact Hbody|]. split; [exact Hframe|].
    apply Hpivot. discriminate.
  - apply (Hsend 0%nat ex_nack [] ex_pd 2 [] [0; 1]).
    + reflexivity.
    + discriminate.
    + repeat constructor; vm_compute; eauto.
Defined.

(** ** What [send_file] returns *)



(** ** The UDP mirror *)

Lemma unpack_III_12 (a0 a1 a2 a3 b0 b1 b2 b3 c0 c1 c2 c3 : byte)
    (rest : bytes) :
  unpack_III
    (take 12 (a0 :: a1 :: a2 :: a3 :: b0 :: b1 :: b2 :: b3
              :: c0 :: c1 :: c2 :: c3 :: rest))
  = Some (be32 a0 a1 a2 a3, be32 b0 b1 b2 b3, be32 c0 c1 c2 c3).
Proof. reflexivity. Qed.

(** The keys of the chunk map after the data loop are the sequences
    stored; with no chunk announced, a reply means that none was stored. *)
Lemma receive_loop_dom (total : Z) (rx : list rx_event)
    (chunks chunks' : gmap Z bytes) rx' :
  UDP.receive_loop total chunks rx = (Ok chunks', rx') ->
  dom chunks' = dom chunks ∪ list_to_set (stored_seqs rx)
  /\ (total = 0 -> chunks' = chunks).
Proof.
  revert chunks.
  induction rx as [|[|d] rx IH]; intros chunks;
    cbn [UDP.receive_loop stored_seqs].
  - intros [= <- <-]. split; [|auto].
    rewrite list_to_set_nil, union_empty_r_L. reflexivity.
  - intros [= <- <-]. split; [|auto].
    rewrite list_to_set_nil, union_empty_r_L. reflexivity.
  - cbv zeta. set (data := take (Z.to_nat 65536) d).
    destruct (bool_decide (data = UDP.TRANSFER_END)).
    { intros [= <- <-]. split; [|auto].
      rewrite list_to_set_nil, union_empty_r_L. reflexivity. }
    destruct (Z.ltb_spec (len data) 12) as [Hshort|Hlong].
    + intros H. apply IH in H as [Hdom Hzero]. split; [|exact Hzero].
      rewrite Hdom. f_equal.
      destruct_prefix data 12%nat; try reflexivity. by_length Hshort.
    + destruct data
        as [|a0 [|a1 [|a2 [|a3 [|? [|? [|? [|? [|? [|? [|? [|? rest]]]]]]]]]]]];
        try by_length Hlong.
      rewrite unpack_III_12.
      destruct (Z.eqb_spec total 0) as [|Hne]; [discriminate|].
      intros H. apply IH in H as [Hdom Hzero]. split; [|lia].
      rewrite Hdom, dom_insert_L, list_to_set_cons.
      rewrite (union_comm_L {[be32 a0 a1 a2 a3]} (dom chunks)).
      rewrite union_assoc_L. reflexivity.
Qed.

(** C9. For every reception of the UDP mirror that sends a reply, with
    [total_chunks] a count: [expected_packets] is [total_chunks] of the
    header, [received_packets] is the number of distinct sequences stored,
    [packet_loss] is their difference, [loss_rate] is
    [packet_loss / expected_packets * 100] (0 when nothing was expected,
    and then nothing is lost), and [success] is true exactly when
    [packet_loss] is 0. *)
Theorem C9_udp_reply (info : UDP.file_info) (rx rx' : list rx_event)
    (r : UDP.response) :
  0 <= UDP.total_chunks info ->
  UDP.receive info rx = (Ok r, rx') ->
  UDP.expected_packets r = UDP.total_chunks info /\
  UDP.received_packets r
    = Z.of_nat (size (list_to_set (stored_seqs rx) : gset Z)) /\
  UDP.packet_loss r = UDP.expected_packets r - UDP.received_packets r /\
  (UDP.loss_rate r * inject_Z (UDP.expected_packets r)
   == inject_Z (UDP.packet_loss r) * 100)%Q /\
  (0 < UDP.expected_packets r ->
   (UDP.loss_rate r
    == inject_Z (UDP.packet_loss r) / inject_Z (UDP.expected_packets r) * 100)%Q)
  /\ (UDP.success r = true <-> UDP.packet_loss r = 0)
  /\ (UDP.packet_loss r <> 0 -> UDP.success r = false).
Proof.
  intros Htot. unfold UDP.receive.
  destruct (UDP.receive_loop (UDP.total_chunks info) ∅ rx)
    as [[chunks|e] rx0] eqn:E; [|discriminate].
  intros [= <- <-]. apply receive_loop_dom in E as [Hdom Hzero].
  unfold UDP.make_response. cbn [UDP.expected_packets UDP.received_packets
    UDP.packet_loss UDP.loss_rate UDP.success].
  split; [reflexivity|]. split.
  { rewrite <- (size_dom (D := gset Z)), Hdom, dom_empty_L, union_empty_l_L.
    reflexivity. }
  split; [reflexivity|].
  assert (forall p e : Z, 0 < e ->
            (inject_Z p / inject_Z e * 100 * inject_Z e == inject_Z p * 100)%Q)
    as Hq.
  { intros p e He. field. unfold inject_Z, Qeq. simpl. lia. }
  split; [|split; [|split]].
  - destruct (Z.gtb_spec (UDP.total_chunks info) 0) as [Hpos|Hle].
    + apply Hq. lia.
    + assert (UDP.total_chunks info = 0) as H0 by lia.
      rewrite (Hzero H0), H0, map_size_empty. reflexivity.
  - intros Hpos. destruct (Z.gtb_spec (UDP.total_chunks info) 0); [|lia].
    reflexivity.
  - apply Z.eqb_eq.
  - intros Hne. apply Z.eqb_neq. exact Hne.
Qed.

Lemma C9_witness :
  exists r,
    UDP.receive ex_udp_info ex_udp_rx = (Ok r, []) /\
    UDP.received_packets r = 2 /\ UDP.packet_loss r = 2 /\
    (UDP.loss_rate r == 50)%Q /\ UDP.success r = false.
Proof.
  eexists. split; [vm_compute; reflexivity|].
  match goal with |- UDP.received_packets ?x = _ /\ _ => set (r := x) end.
  destruct (C9_udp_reply ex_udp_info ex_udp_rx [] r ltac:(simpl; lia) eq_refl)
    as (He & Hr & Hl & _ & Hrate & _ & Hs).
  assert (UDP.received_packets r = 2) as Hr2 by (rewrite Hr; reflexivity).
  assert (UDP.packet_loss r = 2) as Hl2 by (rewrite Hl, He, Hr2; reflexivity).
  split; [exact Hr2|]. split; [exact Hl2|]. split.
  - rewrite Hrate by (rewrite He; simpl; lia). rewrite Hl2, He. reflexivity.
  - apply Hs. rewrite Hl2. discriminate.
Defined.

(** ** One data frame in the inner loop *)

(** C10. For every datagram that [recvfrom(buffer_size)] hands over with at
    least 8 bytes, in a transfer of at most 2^31 chunks, the pass through
    the body of the inner loop ends normally: under the sequence of the
    frame it has stored the bytes after the 8-byte header, cut to the
    declared length, so all of them when the declared length is not
    smaller than what is there.  The parse-error branch is taken by the
    datagrams of fewer than 8 bytes and by no other. *)
Theorem C10_collecting_body (t : RUDP.transfer) (d : bytes) :
  let data := take (Z.to_nat (RUDP.buffer_size t)) d in
  RUDP.total_chunks t <= 2 ^ 31 ->
  (8 <= len data ->
   exists seq_num n t' sent,
     unpack_II (take 8 data) = Some (seq_num, n) /\
     RUDP.collecting_body t d = RUDP.Continue t' sent /\
     RUDP.chunks t'
       = <[seq_num := take (Z.to_nat n) (drop 8 data)]> (RUDP.chunks t) /\
     (len data - 8 <= n -> RUDP.chunks t' !! seq_num = Some (drop 8 data)))
  /\ (len data < 8 -> RUDP.collecting_body t d = RUDP.Break struct_error)
  /\ (forall e, RUDP.collecting_body t d = RUDP.Break e ->
                len data < 8 /\ e = struct_error).
Proof.
  intros data Htot.
  assert (8 <= len data ->
   exists seq_num n t' sent,
     unpack_II (take 8 data) = Some (seq_num, n) /\
     RUDP.collecting_body t d = RUDP.Continue t' sent /\
     RUDP.chunks t'
       = <[seq_num := take (Z.to_nat n) (drop 8 data)]> (RUDP.chunks t) /\
     (len data - 8 <= n -> RUDP.chunks t' !! seq_num = Some (drop 8 data)))
    as Hlong.
  { intros Hlen.
    assert (exists seq_num n, unpack_II (take 8 data) = Some (seq_num, n))
      as (seq_num & n & Hun).
    { destruct_prefix data 8%nat; try by_length Hlen. simpl. eauto. }
    exists seq_num, n.
    set (chunks' := <[seq_num := slice 8 n data]> (RUDP.chunks t)).
    assert (exists t' sent,
              RUDP.collecting_body t d = RUDP.Continue t' sent /\
              RUDP.chunks t' = chunks') as (t' & sent & Hbody & Hch).
    { unfold RUDP.collecting_body. cbv zeta.
      change (Z.to_nat REDUNDANCY_SIZE) with 8%nat. fold data. rewrite Hun.
      unfold REDUNDANCY_SIZE. fold chunks'.
      destruct (seq_num =? RUDP.last_seq_num t); [|eauto].
      set (missed := RUDP.missing (RUDP.total_chunks t) chunks').
      assert (Forall (fun s => - 2 ^ 31 <= s < 2 ^ 31) missed) as Hfit.
      { apply Forall_forall. intros s Hs. apply elem_of_missing in Hs. lia. }
      destruct (array_tobytes_Ok missed Hfit) as [frame Hframe].
      unfold send_ack. rewrite Hframe. eauto. }
    exists t', sent. split; [exact Hun|]. split; [exact Hbody|].
    split; [exact Hch|]. intros Hn. rewrite Hch. subst chunks'.
    rewrite lookup_insert_eq. f_equal. unfold slice. apply take_ge.
    rewrite length_drop. unfold len in Hn. change (Z.to_nat 8) with 8%nat. lia. }
  assert (len data < 8 -> RUDP.collecting_body t d = RUDP.Break struct_error)
    as Hshort.
  { intros Hlen. unfold RUDP.collecting_body. cbv zeta.
    change (Z.to_nat REDUNDANCY_SIZE) with 8%nat. fold data.
    destruct_prefix data 8%nat; try reflexivity. by_length Hlen. }
  split; [exact Hlong|]. split; [exact Hshort|].
  intros e He. destruct (Z.lt_ge_cases (len data) 8) as [Hlt|Hge].
  - rewrite (Hshort Hlt) in He. injection He as <-. auto.
  - destruct (Hlong Hge) as (? & ? & ? & ? & _ & Hbody & _).
    rewrite Hbody in He. discriminate.
Qed.

Lemma C10_witness :
  (exists t' sent,
     RUDP.collecting_body ex_t0 (nth 2 ex_dgrams []) = RUDP.Continue t' sent /\
     RUDP.chunks t' !! 2 = Some (list_byte_of_string "rld")) /\
  RUDP.collecting_body ex_t0 (take 7 (nth 2 ex_dgrams []))
  = RUDP.Break struct_error.
Proof.
  split.
  - destruct (C10_collecting_body ex_t0 (nth 2 ex_dgrams [])
                ltac:(vm_compute; congruence)) as (Hlong & _).
    destruct (Hlong ltac:(vm_compute; congruence))
      as (seq_num & n & t' & sent & Hun & Hbody & _ & Hall).
    vm_compute in Hun. injection Hun as <- <-.
    exists t', sent. split; [exact Hbody|].
    apply Hall. vm_compute. congruence.
  - destruct (C10_collecting_body ex_t0 (take 7 (nth 2 ex_dgrams []))
                ltac:(vm_compute; congruence)) as (_ & Hshort & _).
    apply Hshort. vm_compute. reflexivity.
Defined.

(** ** The worked transfer, both peers *)

(** Frames 0 and 1 are lost on the first pass: the Receiver answers the
    pivot with a NACK for both, gets them again, and answers the new pivot
    with the empty NACK; the Sender, given these two frames, resends the
    two packets and returns the two rounds. *)
Example ex_two_rounds :
  let r := RUDP.send_file ex_fs "x.bin" 12 [RxFrame ex_nack; RxFrame []] in
  RUDP.state r = RUDP.DONE /\ RUDP.losses r = [[0; 1]; []] /\
  datagrams (RUDP.sock r)
    = ex_sent ++ [nth 0 ex_dgrams []; nth 1 ex_dgrams []] /\
  RUDP.start_server "received"
    (map RxFrame [ex_hdr; nth 2 ex_dgrams []; nth 0 ex_dgrams [];
                  nth 1 ex_dgrams []]) ∅
  = (RUDP.LISTENING, {[ "received/x.bin"%string := ex_content ]},
     [ex_nack; []]).
Proof. vm_compute. repeat split. Qed.

(** * Further properties of the code *)

(** ** The NACK channel: [send_ack] and [wait_ack] *)

Lemma array_tobytes_length (l : list Z) (d : bytes) :
  array_tobytes l = Ok d -> length d = (4 * length l)%nat.
Proof.
  revert d. induction l as [|n l IH]; intros d; cbn [array_tobytes].
  - intros [= <-]. reflexivity.
  - destruct (is_i32 n); [|discriminate].
    destruct (array_tobytes l) as [d'|e]; [|discriminate].
    intros [= <-].
    change (length (i32_bytes n ++ d') = (4 * length (n :: l))%nat).
    rewrite length_app, (IH d' eq_refl). simpl. lia.
Qed.

Lemma array_frombytes_take (l : list Z) (d : bytes) (n : nat) :
  array_tobytes l = Ok d ->
  array_frombytes (take (4 * n) d) = Ok (take n l).
Proof.
  revert d n. induction l as [|x l IH]; intros d n; cbn [array_tobytes].
  - intros [= <-]. rewrite !take_nil. reflexivity.
  - destruct (is_i32 x) eqn:Ex; [|discriminate].
    destruct (array_tobytes l) as [d'|e] eqn:El; [|discriminate].
    intros [= <-]. apply is_i32_spec in Ex.
    destruct (le_i32_bytes x [] Ex) as (b0 & b1 & b2 & b3 & Hb & Hv).
    change (array_frombytes (take (4 * n) (i32_bytes x ++ d'))
            = Ok (take n (x :: l))).
    rewrite Hb. destruct n as [|n]; [reflexivity|].
    replace (4 * S n)%nat with (S (S (S (S (4 * n))))) by lia.
    cbn [app take array_frombytes]. rewrite (IH d' n eq_refl), Hv.
    reflexivity.
Qed.

(** X1. What [send_ack] packs, [wait_ack] reads back, up to the 32 KiB of
    its [recvfrom]: for a list of sequences that fit signed 32-bit items,
    the frame has four bytes per sequence and [wait_ack] returns the first
    8192 sequences of the list, so the list itself when it is no longer. *)
Theorem X1_nack_round_trip (missed_seqs : list Z) (rx : list rx_event) :
  Forall (fun n => - 2 ^ 31 <= n < 2 ^ 31) missed_seqs ->
  exists frame,
    send_ack missed_seqs = Ok [frame] /\
    len frame = 4 * len missed_seqs /\
    wait_ack (RxFrame frame :: rx)
    = (Ok (take (Z.to_nat 8192) missed_seqs), rx) /\
    (len missed_seqs <= 8192 ->
     wait_ack (RxFrame frame :: rx) = (Ok missed_seqs, rx)).
Proof.
  intros Hfit. destruct (array_tobytes_Ok missed_seqs Hfit) as [frame Hframe].
  exists frame. unfold send_ack. rewrite Hframe.
  split; [reflexivity|]. split.
  { unfold len. rewrite (array_tobytes_length _ _ Hframe). lia. }
  assert (wait_ack (RxFrame frame :: rx)
          = (Ok (take (Z.to_nat 8192) missed_seqs), rx)) as Hw.
  { cbn [wait_ack].
    change (Z.to_nat (KB * 32)) with (4 * Z.to_nat 8192)%nat.
    rewrite (array_frombytes_take _ _ _ Hframe). reflexivity. }
  split; [exact Hw|]. intros Hlen. rewrite Hw, take_ge; [reflexivity|].
  unfold len in Hlen. lia.
Qed.

Lemma X1_witness :
  exists frame,
    send_ack [5; 17; 100] = Ok [frame] /\ len frame = 12 /\
    wait_ack [RxFrame frame] = (Ok [5; 17; 100], []).
Proof.
  destruct (X1_nack_round_trip [5; 17; 100] [])
    as (frame & Hs & Hl & _ & Hw).
  - repeat constructor; lia.
  - exists frame. split; [exact Hs|]. split; [exact Hl|].
    apply Hw. unfold len. simpl. lia.
Defined.

(** ** [process_ack] *)

Lemma process_ack_loop_bounds (fuel : nat) (rc : Z) (rx : list rx_event)
    (pd : gmap Z bytes) (pivot : Z) r rx' sent :
  0 <= rc <= 5 -> 6 <= rc + Z.of_nat fuel ->
  process_ack_loop fuel rc rx pd pivot = (r, rx', sent) ->
  Z.of_nat (length sent) <= 5 - rc /\
  exists k, Z.of_nat k <= 6 - rc /\ rx' = drop k rx.
Proof.
  revert rc rx r rx' sent.
  induction fuel as [|fuel IH]; intros rc rx r rx' sent Hrc Hf; [lia|].
  assert (forall rest,
    on_timeout fuel rc rest pd pivot = (r, rx', sent) ->
    Z.of_nat (length sent) <= 5 - rc /\
    exists k, Z.of_nat k <= 5 - rc /\ rx' = drop k rest) as Htimeout.
  { intros rest. unfold on_timeout.
    destruct (Z.gtb_spec (rc + 1) 5) as [Hgt|Hle].
    - intros [= <- <- <-]. split; [simpl; lia|]. exists 0%nat.
      split; [lia|reflexivity].
    - destruct (pd !! pivot) as [p|].
      + destruct (process_ack_loop fuel (rc + 1) rest pd pivot)
          as [[r0 rx0] sent0] eqn:E.
        intros [= <- <- <-].
        apply IH in E as (Hs & k & Hk & ->); [|lia|lia].
        split; [simpl; lia|]. exists k. split; [lia|reflexivity].
      + intros [= <- <- <-]. split; [simpl; lia|]. exists 0%nat.
        split; [lia|reflexivity]. }
  destruct rx as [|[|d] rest].
  - rewrite process_ack_loop_idle. intros H.
    apply Htimeout in H as (Hs & k & Hk & ->).
    split; [exact Hs|]. exists 0%nat. rewrite drop_nil. split; [lia|reflexivity].
  - rewrite process_ack_loop_timeout. intros H.
    apply Htimeout in H as (Hs & k & Hk & ->).
    split; [exact Hs|]. exists (S k). split; [lia|reflexivity].
  - rewrite process_ack_loop_frame. intros [= <- <- <-].
    split; [simpl; lia|]. exists 1%nat. split; [lia|reflexivity].
Qed.

(** X2. Every call of [process_ack] returns or raises within six waits: it
    retransmits at most five datagrams, each of them the cached packet of
    the pivot, and it has read at most six outcomes of [recvfrom]; a list it
    returns is the decoding of a frame that arrived. *)
Theorem X2_process_ack_bounded (rx : list rx_event) (pd : gmap Z bytes)
    (pivot : Z) :
  let '(r, rx', sent) := process_ack rx pd pivot in
  r <> None /\
  (length sent <= 5)%nat /\
  Forall (fun p => pd !! pivot = Some p) sent /\
  (exists k, (k <= 6)%nat /\ rx' = drop k rx) /\
  (forall l, r = Some (Ok l) ->
     exists d, RxFrame d ∈ rx /\
               array_frombytes (take (Z.to_nat (KB * 32)) d) = Ok l).
Proof.
  destruct (process_ack rx pd pivot) as [[r rx'] sent] eqn:E.
  pose proof (process_ack_inv _ _ _ _ _ _ E) as (_ & Hsent & res & -> & Hres).
  pose proof (process_ack_loop_bounds 6 0 rx pd pivot _ _ _
                ltac:(lia) ltac:(lia) E) as (Hlen & k & Hk & Hdrop).
  split; [discriminate|]. split; [lia|]. split; [exact Hsent|].
  split; [exists k; split; [lia|exact Hdrop]|].
  intros l [= ->]. destruct (Hres l eq_refl) as (d & Hd & Hfr & _).
  assert (d ∈ frames rx) as Hin by (rewrite Hfr; left).
  apply list_elem_of_omap in Hin as (ev & Hev & Hf).
  destruct ev as [|d0]; [discriminate|]. injection Hf as <-.
  exists d0. split; [exact Hev|exact Hd].
Qed.

(** ** [send_file]: what it sends, and when it sends nothing *)

Lemma datagrams_sock (sent : list bytes) :
  datagrams (SockOpen :: map SendTo sent ++ [SockClose]) = sent.
Proof.
  unfold datagrams. cbn [omap list_omap].
  induction sent as [|d sent IH]; [reflexivity|].
  cbn [map app]. change (omap ?f (SendTo d :: ?l)) with (d :: omap f l).
  f_equal. exact IH.
Qed.

(** X3. On a file that is there, [send_file] sends nothing at all when
    [buffer_size] is 8 (the chunk size is zero: [ZeroDivisionError]) or when
    [buffer_size] or [total_chunks] does not fit an unsigned 32-bit field
    ([struct.error]), as with [buffer_size < 8] on a file of at least
    [8 - buffer_size] bytes; it then returns the empty list.  Otherwise its
    first datagram is the 264-byte header that carries [buffer_size] and
    [total_chunks]. *)
Theorem X3_header_or_nothing (fs : files) (name : string) (bs : Z)
    (content : bytes) (rx : list rx_event) :
  fs !! name = Some content ->
  let total := ceil_div (len content) (bs - 8) in
  let r := RUDP.send_file fs name bs rx in
  (bs = 8 ->
   RUDP.sock r = [SockOpen; SockClose] /\ RUDP.losses r = [] /\
   RUDP.state r = RUDP.RAISED ZeroDivisionError) /\
  (bs <> 8 -> is_u32 bs && is_u32 total = false ->
   RUDP.sock r = [SockOpen; SockClose] /\ RUDP.losses r = [] /\
   RUDP.state r = RUDP.RAISED struct_error) /\
  (bs <> 8 -> is_u32 bs && is_u32 total = true ->
   exists hdr dgrams,
     datagrams (RUDP.sock r) = hdr :: dgrams /\ length hdr = 264%nat /\
     unpack_II (take 8 hdr) = Some (bs, total)).
Proof.
  intros Hfs total r. subst r. unfold RUDP.send_file.
  split; [|split].
  - intros ->. unfold RUDP.send_body. rewrite Hfs. simpl. auto.
  - intros Hbs Hfit. unfold RUDP.send_body. rewrite Hfs.
    unfold REDUNDANCY_SIZE. fold total.
    destruct (Z.eqb_spec (bs - 8) 0) as [|_]; [lia|].
    unfold pack_II256s, pack_II, pack_u32.
    destruct (is_u32 bs); [|simpl; auto].
    simpl in Hfit. rewrite Hfit. simpl. auto.
  - intros Hbs Hfit. apply andb_true_iff in Hfit as [H1 H2].
    apply is_u32_spec in H1, H2.
    destruct (send_body_run fs name bs content rx Hfs ltac:(lia) H1 H2)
      as (h & pd & Hh & _ & Hrun).
    rewrite Hrun.
    destruct (RUDP.nack_loop _ _ _ _ _) as [[st ls] sent2].
    cbn [RUDP.sock]. rewrite datagrams_sock.
    eexists _, _. split; [reflexivity|].
    destruct (unpack_pack_II _ _ _
                (pad256 (take 256 (list_byte_of_string name))) Hh)
      as (Hl & Hun & _).
    split; [|exact Hun].
    rewrite length_app, Hl. unfold pad256.
    rewrite length_app, length_replicate, length_take. lia.
Qed.

Lemma X3_witness :
  RUDP.sock (RUDP.send_file ex_fs "x.bin" 8 []) = [SockOpen; SockClose] /\
  RUDP.state (RUDP.send_file ex_fs "x.bin" 4 []) = RUDP.RAISED struct_error /\
  exists hdr dgrams,
    datagrams (RUDP.sock (RUDP.send_file ex_fs "x.bin" 12 [])) = hdr :: dgrams
    /\ unpack_II (take 8 hdr) = Some (12, 3).
Proof.
  destruct (X3_header_or_nothing ex_fs "x.bin" 8 ex_content [] eq_refl)
    as (H8 & _).
  destruct (X3_header_or_nothing ex_fs "x.bin" 4 ex_content [] eq_refl)
    as (_ & H4 & _).
  destruct (X3_header_or_nothing ex_fs "x.bin" 12 ex_content [] eq_refl)
    as (_ & _ & H12).
  split; [apply H8; reflexivity|].
  split; [apply H4; [discriminate|reflexivity]|].
  destruct (H12 ltac:(discriminate) eq_refl) as (hdr & dgrams & Hd & _ & Hu).
  exists hdr, dgrams. split; [exact Hd|exact Hu].
Defined.

(** When the pivot is not cached, the first timeout raises [KeyError]. *)
Lemma process_ack_uncached (rx : list rx_event) (pd : gmap Z bytes)
    (pivot : Z) :
  pd !! pivot = None ->
  Forall (fun ev => ev = RxTimeout) (take 1 rx) ->
  process_ack rx pd pivot = (Some (Raise KeyError), drop 1 rx, []).
Proof.
  intros Hp Hall. unfold process_ack.
  destruct rx as [|[|d] rest].
  - rewrite process_ack_loop_idle. unfold on_timeout. rewrite Hp. reflexivity.
  - rewrite process_ack_loop_timeout. unfold on_timeout. rewrite Hp.
    reflexivity.
  - simpl in Hall. inversion Hall; discriminate.
Qed.

(** X4. When [total_chunks] comes out as 0 (an empty file, or
    [buffer_size < 8] on a file of fewer than [8 - buffer_size] bytes),
    [send_file] sends the header and no data frame; the packet dictionary
    is empty and the pivot is -1, so unless a frame arrives in the first
    window the first timeout raises [KeyError], and the call returns the
    empty list. *)
Theorem X4_no_chunk_to_send (fs : files) (name : string) (bs : Z)
    (content : bytes) (rx : list rx_event) :
  fs !! name = Some content -> bs <> 8 -> 0 <= bs < 2 ^ 32 ->
  ceil_div (len content) (bs - 8) = 0 ->
  Forall (fun ev => ev = RxTimeout) (take 1 rx) ->
  let r := RUDP.send_file fs name bs rx in
  (exists hdr, datagrams (RUDP.sock r) = [hdr]) /\
  RUDP.losses r = [] /\ RUDP.state r = RUDP.RAISED KeyError.
Proof.
  intros Hfs Hbs Hrange Htotal Hrx r. subst r. unfold RUDP.send_file.
  destruct (send_body_run fs name bs content rx Hfs ltac:(lia) Hrange
              ltac:(rewrite Htotal; lia)) as (h & pd & _ & Hpd & Hrun).
  rewrite Htotal in Hpd, Hrun.
  assert (pd !! (0 - 1) = None) as Hpivot.
  { rewrite Hpd. destruct (decide _); [lia|reflexivity]. }
  rewrite (nack_loop_unfold _ _ _ _ _ _ _ _
             (process_ack_uncached rx pd (0 - 1) Hpivot Hrx)) in Hrun.
  rewrite Hrun. cbn [RUDP.sock RUDP.losses RUDP.state].
  rewrite datagrams_sock, seqZ_nil by lia. simpl. eauto.
Qed.

Lemma X4_witness :
  let r := RUDP.send_file {[ "empty.bin"%string := [] ]} "empty.bin" 1480 [] in
  (exists hdr, datagrams (RUDP.sock r) = [hdr]) /\
  RUDP.losses r = [] /\ RUDP.state r = RUDP.RAISED KeyError.
Proof.
  apply (X4_no_chunk_to_send {[ "empty.bin"%string := [] ]} "empty.bin" 1480
           [] []).
  - reflexivity.
  - discriminate.
  - lia.
  - reflexivity.
  - constructor.
Defined.

Lemma elem_of_data_frames (content : bytes) (cs total : Z) (d : bytes) :
  d ∈ map (frame_of content cs) (seqZ 0 total) ->
  exists s, 0 <= s < total /\ d = frame_of content cs s.
Proof.
  intros Hd. apply list_elem_of_In, in_map_iff in Hd as (s & <- & Hs).
  apply list_elem_of_In, elem_of_seqZ in Hs. exists s. split; [lia|auto].
Qed.

(** X5. After the header, [send_file] sends data frames only: first the
    frames of the sequences [0 .. total_chunks-1] in ascending order, then
    only retransmissions, each of them the frame of a sequence below
    [total_chunks], byte for byte as in the initial pass.  It never sends a
    sequence that is out of range, and never rebuilds a packet. *)
Theorem X5_data_frames_only (fs : files) (name : string) (bs : Z)
    (content : bytes) (rx : list rx_event) (hdr : bytes)
    (dgrams : list bytes) :
  fs !! name = Some content ->
  datagrams (RUDP.sock (RUDP.send_file fs name bs rx)) = hdr :: dgrams ->
  let cs := bs - 8 in
  let total := ceil_div (len content) cs in
  take (Z.to_nat total) dgrams = map (frame_of content cs) (seqZ 0 total) /\
  Forall (fun d => exists s, 0 <= s < total /\ d = frame_of content cs s)
         dgrams.
Proof.
  intros Hfs Hd cs total. unfold RUDP.send_file in Hd.
  destruct (RUDP.send_body fs name bs rx) as [[st ls] sent] eqn:E.
  cbn [RUDP.sock] in Hd. rewrite datagrams_sock in Hd. subst sent.
  apply send_body_inv in E
    as (content' & h & pd & sent2 & Hfs' & _ & _ & _ & _ & Hpd & _ & _
        & Hloop & ->).
  rewrite Hfs in Hfs'. injection Hfs' as <-. unfold REDUNDANCY_SIZE in *.
  fold cs in Hpd, Hloop |- *. fold total in Hpd, Hloop |- *.
  split.
  - rewrite take_app_length'; [reflexivity|].
    rewrite length_map, length_seqZ. reflexivity.
  - apply Forall_app. split.
    + apply Forall_forall. intros d Hin. apply elem_of_data_frames, Hin.
    + apply nack_loop_inv in Hloop as (_ & Hsent & _); [|lia].
      eapply Forall_impl; [exact Hsent|]. intros d (s & Hs).
      rewrite Hpd in Hs. destruct (decide (0 <= s < total)); [|discriminate].
      injection Hs as <-. eauto.
Qed.

Lemma X5_witness :
  let dgrams :=
    tl (datagrams (RUDP.sock (RUDP.send_file ex_fs "x.bin" 12
                                [RxFrame ex_nack; RxTimeout]))) in
  take 3 dgrams = map (frame_of ex_content 4) (seqZ 0 3) /\
  Forall (fun d => exists s, 0 <= s < 3 /\ d = frame_of ex_content 4 s) dgrams.
Proof.
  apply (X5_data_frames_only ex_fs "x.bin" 12 ex_content
           [RxFrame ex_nack; RxTimeout]
           (hd [] (datagrams (RUDP.sock (RUDP.send_file ex_fs "x.bin" 12
                                           [RxFrame ex_nack; RxTimeout]))))).
  - reflexivity.
  - vm_compute. reflexivity.
Defined.

(** ** NACK frames the Sender cannot use *)

Lemma resend_dropped_data_uncached (l1 l2 : list Z) (s : Z)
    (pd : gmap Z bytes) :
  Forall (fun s => is_Some (pd !! s)) l1 -> pd !! s = None ->
  resend_dropped_data (l1 ++ s :: l2) pd = (Raise KeyError, cached pd l1).
Proof.
  intros Hall Hs. induction Hall as [|x l1 [p Hp] _ IH]; simpl.
  - rewrite Hs. reflexivity.
  - rewrite Hp, IH. reflexivity.
Qed.

(** X6. A NACK that names a sequence which is not in the packet dictionary:
    the Sender records the whole list as a round, retransmits the packets
    listed before that sequence, and stops there with [KeyError]; what
    follows in the NACK is not retransmitted and no further round is
    waited for. *)
Theorem X6_nack_with_unknown_sequence (fuel : nat) (d : bytes)
    (rx : list rx_event) (pd : gmap Z bytes) (pivot : Z)
    (losses : list (list Z)) (l1 l2 : list Z) (s : Z) :
  array_frombytes (take (Z.to_nat (KB * 32)) d) = Ok (l1 ++ s :: l2) ->
  Forall (fun s => is_Some (pd !! s)) l1 -> pd !! s = None ->
  RUDP.nack_loop (S fuel) (RxFrame d :: rx) pd pivot losses
  = (RUDP.RAISED KeyError, losses ++ [l1 ++ s :: l2], cached pd l1).
Proof.
  intros Hd Hall Hs.
  rewrite (nack_loop_unfold _ _ _ _ _ _ _ _ (process_ack_frame d rx pd pivot)).
  rewrite Hd.
  destruct (len (l1 ++ s :: l2) =? 0) eqn:El.
  { apply len_0_nil in El. destruct l1; discriminate. }
  rewrite (resend_dropped_data_uncached l1 l2 s pd Hall Hs). reflexivity.
Qed.

Lemma X6_witness :
  RUDP.nack_loop 1 [RxFrame (i32_bytes 1 ++ i32_bytes 7 ++ i32_bytes 0)]
                 ex_pd 2 []
  = (RUDP.RAISED KeyError, [[1; 7; 0]], [nth 1 ex_dgrams []]).
Proof.
  apply (X6_nack_with_unknown_sequence 0
           (i32_bytes 1 ++ i32_bytes 7 ++ i32_bytes 0) [] ex_pd 2 [] [1] [0] 7).
  - reflexivity.
  - repeat constructor. vm_compute. eauto.
  - reflexivity.
Defined.

Lemma array_frombytes_length (d : bytes) :
  (exists l, array_frombytes d = Ok l /\ (4 * length l = length d)%nat
             /\ (length d mod 4 = 0)%nat)
  \/ (array_frombytes d = Raise ValueError /\ (length d mod 4 <> 0)%nat).
Proof.
  remember (length d) as n eqn:Hn. revert d Hn.
  induction n as [n IH] using lt_wf_ind. intros d Hn.
  destruct d as [|b0 [|b1 [|b2 [|b3 d]]]]; simpl in Hn; subst n.
  - left. exists []. auto.
  - right. split; [reflexivity|discriminate].
  - right. split; [reflexivity|discriminate].
  - right. split; [reflexivity|discriminate].
  - cbn [array_frombytes].
    change (S (S (S (S (length d))))) with (4 + length d)%nat.
    assert ((4 + length d) mod 4 = length d mod 4)%nat as Hmod.
    { rewrite <- Nat.Div0.add_mod_idemp_l. reflexivity. }
    destruct (IH (length d) ltac:(simpl; lia) d eq_refl)
      as [(l & -> & Hl & Hm)|(-> & Hm)].
    + left. exists (le_i32 b0 b1 b2 b3 :: l).
      split; [reflexivity|]. split; [cbn [length]; lia|].
      rewrite Hmod. exact Hm.
    + right. split; [reflexivity|]. rewrite Hmod. exact Hm.
Qed.

(** X7. A frame whose length (after the cut to 32 KiB) is not a multiple
    of four is no NACK: [frombytes] raises [ValueError], the Sender stops
    without recording a round or retransmitting, and [send_file] returns
    the rounds it had. *)
Theorem X7_malformed_nack (fuel : nat) (d : bytes) (rx : list rx_event)
    (pd : gmap Z bytes) (pivot : Z) (losses : list (list Z)) :
  (length (take (Z.to_nat (KB * 32)) d) mod 4 <> 0)%nat ->
  RUDP.nack_loop (S fuel) (RxFrame d :: rx) pd pivot losses
  = (RUDP.RAISED ValueError, losses, []).
Proof.
  intros Hlen.
  rewrite (nack_loop_unfold _ _ _ _ _ _ _ _ (process_ack_frame d rx pd pivot)).
  destruct (array_frombytes_length (take (Z.to_nat (KB * 32)) d))
    as [(l & _ & _ & Hm)|(-> & _)]; [contradiction|reflexivity].
Qed.

Lemma X7_witness :
  RUDP.nack_loop 1 [RxFrame [x01; x00; x00]] ex_pd 2 [[0; 1]]
  = (RUDP.RAISED ValueError, [[0; 1]], []).
Proof.
  apply (X7_malformed_nack 0 [x01; x00; x00] [] ex_pd 2 [[0; 1]]).
  vm_compute. discriminate.
Defined.

(** ** The body of the Receiver's inner loop *)

(** All that a normal pass through the body does. *)
Lemma collecting_body_inv (t t' : RUDP.transfer) (d : bytes) sent :
  RUDP.collecting_body t d = RUDP.Continue t' sent ->
  let data := take (Z.to_nat (RUDP.buffer_size t)) d in
  exists seq_num n,
    unpack_II (take 8 data) = Some (seq_num, n) /\
    RUDP.chunks t' = <[seq_num := slice 8 n data]> (RUDP.chunks t) /\
    RUDP.total_chunks t' = RUDP.total_chunks t /\
    RUDP.buffer_size t' = RUDP.buffer_size t /\
    RUDP.filename t' = RUDP.filename t /\
    RUDP.total_packets_received t' = RUDP.total_packets_received t + 1 /\
    ((seq_num <> RUDP.last_seq_num t /\ sent = [] /\
      RUDP.last_seq_num t' = RUDP.last_seq_num t) \/
     (seq_num = RUDP.last_seq_num t /\
      exists frame,
        sent = [frame] /\
        array_tobytes (RUDP.missing (RUDP.total_chunks t) (RUDP.chunks t'))
        = Ok frame /\
        RUDP.last_seq_num t' =
          if decide (RUDP.missing (RUDP.total_chunks t) (RUDP.chunks t') = [])
          then RUDP.last_seq_num t
          else max_list_Z (RUDP.missing (RUDP.total_chunks t)
                                        (RUDP.chunks t')))).
Proof.
  unfold RUDP.collecting_body. cbv zeta.
  change (Z.to_nat REDUNDANCY_SIZE) with 8%nat. unfold REDUNDANCY_SIZE.
  destruct (unpack_II _) as [[seq_num n]|]; [|discriminate].
  destruct (Z.eqb_spec seq_num (RUDP.last_seq_num t)) as [Heq|Hne].
  - unfold send_ack.
    destruct (array_tobytes _) as [frame|e] eqn:Ef; [|discriminate].
    intros [= <- <-]. exists seq_num, n. cbn.
    repeat (split; [reflexivity|]). right. split; [exact Heq|].
    exists frame. split; [reflexivity|]. split; [exact Ef|].
    destruct (decide (RUDP.missing _ _ = [])) as [->|Hm]; [reflexivity|].
    destruct (Z.gtb_spec (len (RUDP.missing (RUDP.total_chunks t)
      (<[seq_num := slice 8 n (take (Z.to_nat (RUDP.buffer_size t)) d)]>
         (RUDP.chunks t)))) 0) as [_|Hle]; [reflexivity|].
    exfalso. destruct (RUDP.missing _ _); [contradiction|].
    unfold len in Hle. simpl in Hle. lia.
  - intros [= <- <-]. exists seq_num, n. cbn.
    repeat (split; [reflexivity|]). left. auto.
Qed.

(** In a transfer of at most 2^31 chunks, a datagram whose first eight
    bytes are there is stored. *)
Lemma collecting_body_stores (t : RUDP.transfer) (d : bytes)
    (seq_num n : Z) :
  let data := take (Z.to_nat (RUDP.buffer_size t)) d in
  RUDP.total_chunks t <= 2 ^ 31 ->
  unpack_II (take 8 data) = Some (seq_num, n) ->
  exists t' sent,
    RUDP.collecting_body t d = RUDP.Continue t' sent /\
    RUDP.chunks t' = <[seq_num := slice 8 n data]> (RUDP.chunks t).
Proof.
  intros data Htot Hun. unfold RUDP.collecting_body. cbv zeta.
  change (Z.to_nat REDUNDANCY_SIZE) with 8%nat. fold data. rewrite Hun.
  unfold REDUNDANCY_SIZE.
  destruct (seq_num =? RUDP.last_seq_num t); [|eauto].
  set (missed := RUDP.missing _ _).
  assert (Forall (fun s => - 2 ^ 31 <= s < 2 ^ 31) missed) as Hfit.
  { apply Forall_forall. intros s Hs. apply elem_of_missing in Hs. lia. }
  destruct (array_tobytes_Ok missed Hfit) as [frame Hframe].
  unfold send_ack. rewrite Hframe. eauto.
Qed.

(** X8. A datagram made of the eight header bytes that [struct.pack]
    gives for [(seq, n)] and of a payload is stored under [seq] as that
    payload, cut to the declared length [n] and to the [buffer_size - 8]
    bytes that [recvfrom(buffer_size)] leaves of it: the payload itself
    when it is no longer than either. *)
Theorem X8_data_frame_round_trip (t : RUDP.transfer) (seq n : Z)
    (h payload : bytes) :
  pack_II seq n = Some h ->
  8 <= RUDP.buffer_size t -> RUDP.total_chunks t <= 2 ^ 31 ->
  exists t' sent,
    RUDP.collecting_body t (h ++ payload) = RUDP.Continue t' sent /\
    RUDP.chunks t' !! seq
    = Some (take (Z.to_nat (Z.min n (RUDP.buffer_size t - 8))) payload) /\
    (len payload <= n -> len payload <= RUDP.buffer_size t - 8 ->
     RUDP.chunks t' !! seq = Some payload).
Proof.
  intros Hh Hbs Htot.
  destruct (unpack_pack_II seq n h payload Hh) as (Hl & Hun & _ & Hn).
  set (bs := RUDP.buffer_size t) in *.
  assert (take (Z.to_nat bs) (h ++ payload)
          = h ++ take (Z.to_nat (bs - 8)) payload) as Hdata.
  { rewrite take_app, Hl. rewrite (take_ge h) by lia.
    f_equal. f_equal. lia. }
  assert (unpack_II (take 8 (take (Z.to_nat bs) (h ++ payload)))
          = Some (seq, n)) as Hun'.
  { rewrite Hdata. rewrite take_app_le, take_ge by lia.
    rewrite take_app_le, take_ge in Hun by lia. exact Hun. }
  destruct (collecting_body_stores t (h ++ payload) seq n Htot Hun')
    as (t' & sent & Hbody & Hch).
  fold bs in Hch. rewrite Hdata in Hch.
  assert (slice 8 n (h ++ take (Z.to_nat (bs - 8)) payload)
          = take (Z.to_nat (Z.min n (bs - 8))) payload) as Hslice.
  { unfold slice. change (Z.to_nat 8) with 8%nat.
    rewrite drop_app_length' by auto. rewrite take_take. f_equal. lia. }
  rewrite Hslice in Hch.
  exists t', sent. split; [exact Hbody|].
  assert (RUDP.chunks t' !! seq
          = Some (take (Z.to_nat (Z.min n (bs - 8))) payload)) as Hget.
  { rewrite Hch. apply lookup_insert_eq. }
  split; [exact Hget|]. intros H1 H2. rewrite Hget. f_equal.
  apply take_ge. unfold len in *. lia.
Qed.

Lemma X8_witness :
  exists t' sent,
    RUDP.collecting_body ex_t0 (nth 0 ex_dgrams []) = RUDP.Continue t' sent /\
    RUDP.chunks t' !! 0 = Some (list_byte_of_string "hell").
Proof.
  destruct (X8_data_frame_round_trip ex_t0 0 4 (take 8 (nth 0 ex_dgrams []))
              (list_byte_of_string "hell") eq_refl
              ltac:(vm_compute; congruence) ltac:(vm_compute; congruence))
    as (t' & sent & Hbody & _ & Hget).
  exists t', sent. split; [exact Hbody|].
  apply Hget; vm_compute; congruence.
Defined.

(** X9. A data frame that arrives a second time right after the first
    leaves the chunk map as it was; only the count of received packets goes
    up, by one. *)
Theorem X9_duplicate_frame (t t1 t2 : RUDP.transfer) (d : bytes)
    (sent1 sent2 : list bytes) :
  RUDP.collecting_body t d = RUDP.Continue t1 sent1 ->
  RUDP.collecting_body t1 d = RUDP.Continue t2 sent2 ->
  RUDP.chunks t2 = RUDP.chunks t1 /\
  RUDP.total_packets_received t2 = RUDP.total_packets_received t1 + 1.
Proof.
  intros H1 H2.
  apply collecting_body_inv in H1
    as (s1 & n1 & Hu1 & Hc1 & _ & Hb1 & _).
  apply collecting_body_inv in H2
    as (s2 & n2 & Hu2 & Hc2 & _ & _ & _ & Hr2 & _).
  rewrite Hb1, Hu1 in Hu2. injection Hu2 as <- <-.
  split; [|exact Hr2].
  rewrite Hc2, Hb1, Hc1. apply insert_insert_eq.
Qed.

Lemma X9_witness :
  exists t1 t2 sent1 sent2,
    RUDP.collecting_body ex_t0 (nth 0 ex_dgrams [])
    = RUDP.Continue t1 sent1 /\
    RUDP.collecting_body t1 (nth 0 ex_dgrams []) = RUDP.Continue t2 sent2 /\
    RUDP.chunks t2 = RUDP.chunks t1.
Proof.
  eexists _, _, _, _.
  split; [vm_compute; reflexivity|]. split; [vm_compute; reflexivity|].
  eapply (X9_duplicate_frame ex_t0 _ _ (nth 0 ex_dgrams [])).
  - vm_compute. reflexivity.
  - vm_compute. reflexivity.
Defined.

(** ** The pivot and the end of the inner loop *)

Lemma missing_nil_complete (t : RUDP.transfer) :
  RUDP.missing (RUDP.total_chunks t) (RUDP.chunks t) = [] <-> complete t.
Proof.
  unfold complete. split.
  - intros Hm k Hk.
    destruct (RUDP.chunks t !! k) as [v|] eqn:E; [eauto|].
    assert (k ∈ RUDP.missing (RUDP.total_chunks t) (RUDP.chunks t)) as Hin
      by (apply elem_of_missing; auto).
    rewrite Hm in Hin. inversion Hin.
  - intros Hc.
    destruct (RUDP.missing _ _) as [|s l] eqn:E; [reflexivity|].
    assert (s ∈ RUDP.missing (RUDP.total_chunks t) (RUDP.chunks t)) as Hin
      by (rewrite E; left).
    apply elem_of_missing in Hin as [Hs Hnone].
    destruct (Hc s Hs) as [v Hv]. congruence.
Qed.

Lemma complete_size (t : RUDP.transfer) :
  complete t -> RUDP.total_chunks t <= Z.of_nat (size (RUDP.chunks t)).
Proof.
  intros Hc.
  assert (list_to_set (seqZ 0 (RUDP.total_chunks t))
          ⊆ (dom (RUDP.chunks t) : gset Z)) as Hsub.
  { intros k Hk. apply elem_of_list_to_set, elem_of_seqZ in Hk.
    apply elem_of_dom, Hc. lia. }
  apply subseteq_size in Hsub.
  rewrite size_dom, size_list_to_set in Hsub by apply NoDup_seqZ.
  rewrite length_seqZ in Hsub. lia.
Qed.

Lemma collect_done (t : RUDP.transfer) (rx : list rx_event) :
  RUDP.total_chunks t <= Z.of_nat (size (RUDP.chunks t)) ->
  RUDP.collect t rx = (RUDP.Finished t, rx, []).
Proof.
  intros H. destruct rx as [|ev rx]; cbn [RUDP.collect];
    destruct (Z.ltb_spec (Z.of_nat (size (RUDP.chunks t)))
                         (RUDP.total_chunks t)); try lia; reflexivity.
Qed.

Lemma array_tobytes_nil (l : list Z) :
  array_tobytes l = Ok [] -> l = [].
Proof.
  intros H. apply array_tobytes_length in H. destruct l; [reflexivity|].
  simpl in H. lia.
Qed.

(** While the pivot is a sequence of the transfer that is still missing,
    the loop can only finish on NACKs that are non-empty but for the last. *)
Lemma collect_pivot (rx : list rx_event) :
  forall (t t' : RUDP.transfer) rx' sent,
    0 <= RUDP.last_seq_num t < RUDP.total_chunks t ->
    RUDP.chunks t !! RUDP.last_seq_num t = None ->
    RUDP.collect t rx = (RUDP.Finished t', rx', sent) ->
    Forall (fun f => f <> []) (removelast sent) /\
    (last sent = Some [] <-> complete t').
Proof.
  assert (forall (t t' : RUDP.transfer) (rx0 rx' : list rx_event) sent,
    0 <= RUDP.last_seq_num t < RUDP.total_chunks t ->
    RUDP.chunks t !! RUDP.last_seq_num t = None ->
    (RUDP.Finished t, rx0, @nil bytes) = (RUDP.Finished t', rx', sent) ->
    Forall (fun f => f <> []) (removelast sent) /\
    (last sent = Some [] <-> complete t')) as Hstay.
  { intros t t' rx0 rx' sent Hr Hnone [= <- <- <-]. split; [constructor|].
    split; [discriminate|]. intros Hc. destruct (Hc _ Hr) as [v Hv].
    congruence. }
  induction rx as [|[|d] rx IH]; intros t t' rx' sent Hr Hnone;
    cbn [RUDP.collect];
    destruct (Z.ltb_spec (Z.of_nat (size (RUDP.chunks t)))
                         (RUDP.total_chunks t)) as [Hlt|Hge];
    try (intros ?; discriminate); try (apply Hstay; assumption).
  destruct (RUDP.collecting_body t d) as [t1 sent1|e|e] eqn:Eb;
    try (intros ?; discriminate).
  destruct (RUDP.collect t1 rx) as [[r1 rx1] sent2] eqn:Ec.
  intros [= -> <- <-].
  apply collecting_body_inv in Eb
    as (seq_num & n & _ & Hch & Htot & _ & _ & _ & Hpivot).
  destruct Hpivot as [(Hne & -> & Hp1)|(Heq & frame & -> & Hframe & Hp1)].
  - apply (IH t1 t' rx1 sent2); [congruence| |exact Ec].
    rewrite Hp1, Hch, lookup_insert_ne by exact Hne. exact Hnone.
  - rewrite <- Htot in Hframe, Hp1.
    destruct (decide (RUDP.missing (RUDP.total_chunks t1) (RUDP.chunks t1)
                      = [])) as [Hm|Hm].
    + rewrite Hm in Hframe. injection Hframe as <-.
      apply missing_nil_complete in Hm.
      rewrite (collect_done t1 rx (complete_size t1 Hm)) in Ec.
      injection Ec as <- <- <-. split; [constructor|]. simpl. tauto.
    + pose proof (max_list_Z_spec _ Hm) as [Hin _].
      rewrite <- Hp1 in Hin. apply elem_of_missing in Hin as [Hr1 Hnone1].
      destruct (IH t1 t' rx1 sent2 Hr1 Hnone1 Ec) as [Hall Hiff].
      assert (frame <> []) as Hf.
      { intros ->. apply array_tobytes_nil in Hframe. contradiction. }
      cbn [app]. destruct sent2 as [|f2 sent2].
      * split; [constructor|]. simpl. simpl in Hiff.
        split; [intros [= ?]; contradiction|].
        intros Hc. apply Hiff in Hc. discriminate.
      * split; [constructor; assumption|]. exact Hiff.
Qed.

(** X10. From the start of a transfer of at least one chunk, if the inner
    loop finishes: every NACK it sent before the last lists something, and
    the last frame it sent is the empty NACK exactly when the chunk map has
    every sequence of [0, total_chunks).  So the Receiver never announces
    completion early, and a loop that finishes without the empty NACK (on
    sequences outside the transfer) writes a file with chunks missing. *)
Theorem X10_empty_nack_iff_complete (d : bytes) (t t' : RUDP.transfer)
    (rx rx' : list rx_event) (sent : list bytes) :
  RUDP.listen d = RUDP.Accepted t -> 0 < RUDP.total_chunks t ->
  RUDP.collect t rx = (RUDP.Finished t', rx', sent) ->
  Forall (fun frame => frame <> []) (removelast sent) /\
  (last sent = Some [] <-> complete t').
Proof.
  intros Hl Htot Hc. apply listen_Accepted in Hl as (_ & Hempty & Hp & _).
  apply (collect_pivot rx t t' rx' sent); [lia| |exact Hc].
  rewrite Hempty. apply lookup_empty.
Qed.

Lemma X10_witness :
  exists t', RUDP.collect ex_t0 ex_rx = (RUDP.Finished t', [], [[]]) /\
             complete t'.
Proof.
  eexists. split; [vm_compute; reflexivity|].
  eapply (proj2 (X10_empty_nack_iff_complete ex_hdr ex_t0 _ ex_rx [] [[]]
                   eq_refl ltac:(simpl; lia) eq_refl)).
  reflexivity.
Defined.

(** ** The server loop and the disk *)








(** ** The header, from the Sender to the Receiver *)

Lemma utf8_valid_zeros (k : nat) : utf8_valid (replicate k x00) = true.
Proof. induction k as [|k IH]; [reflexivity|exact IH]. Qed.

(** The NUL padding of the ["256s"] field does not change whether the field
    decodes: a sequence cut short stays invalid, NUL being no continuation
    byte. *)
Lemma utf8_valid_pad_aux (k n : nat) (a : bytes) :
  (length a <= n)%nat ->
  utf8_valid (a ++ replicate k x00) = utf8_valid a.
Proof.
  revert a. induction n as [|n IH]; intros a Hn.
  - destruct a; [|simpl in Hn; lia]. apply utf8_valid_zeros.
  - destruct a as [|b0 d1]; [apply utf8_valid_zeros|]. simpl in Hn.
    change ((b0 :: d1) ++ replicate k x00)
      with (b0 :: (d1 ++ replicate k x00)).
    cbn [utf8_valid].
    destruct (in_range 0 127 b0); [apply IH; lia|].
    destruct (in_range 194 223 b0).
    { destruct d1 as [|b1 d2]; cbn [app].
      - destruct k as [|k]; reflexivity.
      - rewrite IH by (simpl in Hn; lia). reflexivity. }
    destruct (in_range 224 239 b0).
    { destruct d1 as [|b1 [|b2 d3]]; cbn [app].
      - destruct k as [|[|k]]; try reflexivity. cbn [replicate].
        destruct (in_range 224 224 b0), (in_range 237 237 b0); reflexivity.
      - destruct k as [|k]; [reflexivity|]. cbn [replicate].
        match goal with |- ?c && _ && _ = false => destruct c; reflexivity end.
      - rewrite IH by (simpl in Hn; lia). reflexivity. }
    destruct (in_range 240 244 b0); [|reflexivity].
    destruct d1 as [|b1 [|b2 [|b3 d4]]]; cbn [app].
    + destruct k as [|[|[|k]]]; try reflexivity. cbn [replicate].
      destruct (in_range 240 240 b0), (in_range 244 244 b0); reflexivity.
    + destruct k as [|[|k]]; try reflexivity. cbn [replicate].
      match goal with |- ?c && _ && _ && _ = false =>
        destruct c; reflexivity end.
    + destruct k as [|k]; [reflexivity|]. cbn [replicate].
      match goal with |- ?c && ?c' && _ && _ = false =>
        destruct c, c'; reflexivity end.
    + rewrite IH by (simpl in Hn; lia). reflexivity.
Qed.

Lemma utf8_valid_pad (k : nat) (a : bytes) :
  utf8_valid (a ++ replicate k x00) = utf8_valid a.
Proof. apply (utf8_valid_pad_aux k (length a)). lia. Qed.

Lemma lstrip_nul_zeros (k : nat) (d : bytes) :
  lstrip_nul (replicate k x00 ++ d) = lstrip_nul d.
Proof. induction k as [|k IH]; [reflexivity|exact IH]. Qed.

Lemma lstrip_nul_pad (k : nat) (a : bytes) :
  lstrip_nul (a ++ replicate k x00) =
  match lstrip_nul a with [] => [] | l => l ++ replicate k x00 end.
Proof.
  induction a as [|b a IH]; cbn [app lstrip_nul].
  - replace (replicate k x00) with (replicate k x00 ++ [])
      by apply app_nil_r.
    apply lstrip_nul_zeros.
  - destruct (Byte.eqb b x00); [exact IH|reflexivity].
Qed.

Lemma rev_replicate (k : nat) (x : byte) :
  rev (replicate k x) = replicate k x.
Proof.
  induction k as [|k IH]; [reflexivity|].
  cbn [replicate rev]. rewrite IH. symmetry. apply replicate_cons_app.
Qed.

(** Trailing NUL padding is what [strip] removes. *)
Lemma strip_nul_pad (k : nat) (a : bytes) :
  strip_nul (a ++ replicate k x00) = strip_nul a.
Proof.
  unfold strip_nul. rewrite lstrip_nul_pad.
  destruct (lstrip_nul a) as [|b l]; [reflexivity|].
  rewrite rev_app_distr, rev_replicate, lstrip_nul_zeros. reflexivity.
Qed.

(** The Receiver's reading of a header as [struct.pack] lays it out. *)
Lemma listen_packed (bs total : Z) (h raw : bytes) :
  pack_II bs total = Some h ->
  RUDP.listen (h ++ pad256 (take 256 raw)) =
    (if utf8_valid (take 256 raw)
     then RUDP.Accepted
            (RUDP.Build_transfer
               (string_of_list_byte (strip_nul (take 256 raw)))
               bs total ∅ (total - 1) 0)
     else RUDP.Ignored).
Proof.
  intros Hh.
  destruct (unpack_pack_II _ _ _ (pad256 (take 256 raw)) Hh)
    as (Hl8 & Hun & _).
  assert (length (h ++ pad256 (take 256 raw)) = 264%nat) as Hlen.
  { rewrite length_app, Hl8. unfold pad256.
    rewrite length_app, length_replicate, length_take. lia. }
  unfold RUDP.listen, unpack_II256s.
  rewrite (take_ge _ 512) by lia. rewrite (take_ge _ 264) by lia.
  rewrite Hlen. cbn [Nat.eqb]. rewrite Hun.
  rewrite drop_app_length' by (symmetry; exact Hl8).
  unfold pad256, decode_strip. rewrite take_take, Nat.min_id.
  rewrite utf8_valid_pad, strip_nul_pad.
  destruct (utf8_valid (take 256 raw)); reflexivity.
Qed.

(** X14. The header that [send_file] puts on the wire is read back by
    [start_server] field by field: the buffer size, the number of chunks,
    and the file name cut to its first 256 bytes and stripped of NUL
    characters at both ends.  When the cut leaves bytes that are no UTF-8
    (a character astride the 256th byte), the Receiver ignores the header.
    A name of at most 256 bytes with no NUL at either end arrives as it
    was given. *)
Theorem X14_header_round_trip (fs : files) (name : string) (bs : Z)
    (rx : list rx_event) (hdr : bytes) (dgrams : list bytes) :
  datagrams (RUDP.sock (RUDP.send_file fs name bs rx)) = hdr :: dgrams ->
  let raw := list_byte_of_string name in
  exists content,
    fs !! name = Some content /\
    let total := ceil_div (len content) (bs - 8) in
    RUDP.listen hdr =
      (if utf8_valid (take 256 raw)
       then RUDP.Accepted
              (RUDP.Build_transfer
                 (string_of_list_byte (strip_nul (take 256 raw)))
                 bs total ∅ (total - 1) 0)
       else RUDP.Ignored) /\
    ((length raw <= 256)%nat -> utf8_valid raw = true ->
     strip_nul raw = raw ->
     RUDP.listen hdr =
       RUDP.Accepted (RUDP.Build_transfer name bs total ∅ (total - 1) 0)).
Proof.
  intros Hd raw. unfold RUDP.send_file in Hd.
  destruct (RUDP.send_body fs name bs rx) as [[st ls] sent] eqn:Hb.
  cbn [RUDP.sock] in Hd. rewrite datagrams_sock in Hd. subst sent.
  apply send_body_inv in Hb.
  destruct Hb as (content & h & pd & sent2 & Hfs & _ & Hh & Hhdr & Hlen & _).
  exists content. split; [exact Hfs|]. intros total.
  fold raw in Hhdr. unfold REDUNDANCY_SIZE in Hh. fold total in Hh.
  pose proof (listen_packed bs total h raw Hh) as Hlisten.
  rewrite <- Hhdr in Hlisten.
  split; [exact Hlisten|].
  intros Hle Hv Hs. rewrite Hlisten.
  rewrite (take_ge raw) by lia. rewrite Hv, Hs.
  unfold raw. rewrite string_of_list_byte_of_string. reflexivity.
Qed.

Lemma X14_witness :
  exists hdr dgrams,
    datagrams (RUDP.sock (RUDP.send_file ex_fs "x.bin" 12 [])) = hdr :: dgrams
    /\ RUDP.listen hdr =
       RUDP.Accepted (RUDP.Build_transfer "x.bin" 12 3 ∅ 2 0).
Proof.
  eexists _, _. split; [vm_compute; reflexivity|].
  destruct (X14_header_round_trip ex_fs "x.bin" 12 []
              _ _ eq_refl) as (content & Hfs & _ & Hname).
  assert (Hc : ex_fs !! "x.bin"%string = Some ex_content) by reflexivity.
  rewrite Hc in Hfs. injection Hfs as <-.
  apply Hname; [vm_compute; lia|reflexivity|reflexivity].
Defined.

(** ** A transfer without loss *)




(** ** The Sender of the UDP mirror *)

Lemma unpack_pack_III (a b c : Z) (h rest : bytes) :
  pack_III a b c = Some h ->
  length h = 12%nat /\ unpack_III (take 12 (h ++ rest)) = Some (a, b, c).
Proof.
  unfold pack_III, pack_II.
  destruct (pack_u32 a) as [x|] eqn:Ea; [|discriminate].
  destruct (pack_u32 b) as [y|] eqn:Eb; [|discriminate].
  destruct (pack_u32 c) as [z|] eqn:Ec; [|discriminate].
  intros [= <-].
  apply pack_u32_Some in Ea as (_ & a0 & a1 & a2 & a3 & -> & Hxa).
  apply pack_u32_Some in Eb as (_ & b0 & b1 & b2 & b3 & -> & Hxb).
  apply pack_u32_Some in Ec as (_ & c0 & c1 & c2 & c3 & -> & Hxc).
  simpl. rewrite Hxa, Hxb, Hxc. auto.
Qed.

Lemma pack_III_is_Some (a b c : Z) :
  0 <= a < 2 ^ 32 -> 0 <= b < 2 ^ 32 -> 0 <= c < 2 ^ 32 ->
  is_Some (pack_III a b c).
Proof.
  intros Ha Hb Hc. unfold pack_III.
  destruct (pack_u32_is_Some a Ha) as [x ->].
  destruct (pack_II_is_Some b c Hb Hc) as [y ->]. eauto.
Qed.

(** Every chunk of the file has between 1 and [cs] bytes. *)
Lemma chunk_of_length (content : bytes) (cs s : Z) :
  0 < cs -> 0 <= s < ceil_div (len content) cs ->
  0 < len (chunk_of content cs s) <= cs.
Proof.
  intros Hcs Hs.
  destruct (ceil_div_pos (len content) cs ltac:(unfold len; lia) Hcs)
    as (_ & _ & _ & Hlast).
  assert (0 < len content) as Hpos.
  { destruct (Z.eq_dec (len content) 0) as [H0|]; [|unfold len in *; lia].
    rewrite H0 in Hs. unfold ceil_div in Hs. simpl in Hs.
    rewrite Z.div_0_l in Hs by lia. lia. }
  specialize (Hlast Hpos).
  unfold chunk_of, slice, len in *.
  rewrite length_take, length_drop. nia.
Qed.

Section UDPFrames.

Variables (content : bytes) (cs total : Z).
Hypothesis Hcs : 0 < cs < 2 ^ 32.
Hypothesis Htotal : total = ceil_div (len content) cs.
Hypothesis Hfit : total < 2 ^ 32.

(** A data frame of the UDP Sender: twelve header bytes that carry the
    sequence, the count and the length of the payload, then the payload. *)
Lemma udp_frame_of_decode (s : Z) :
  0 <= s < total ->
  let d := udp_frame_of content cs total s in
  len d = 12 + len (chunk_of content cs s) /\
  unpack_III (take 12 d) = Some (s, total, len (chunk_of content cs s)) /\
  drop 12 d = chunk_of content cs s.
Proof.
  intros Hs d. subst d. unfold udp_frame_of.
  pose proof (chunk_of_length content cs s ltac:(lia) ltac:(lia)) as Hc.
  destruct (pack_III_is_Some s total (len (chunk_of content cs s))
              ltac:(lia) ltac:(lia) ltac:(lia)) as [h Hh].
  rewrite Hh. simpl default.
  destruct (unpack_pack_III _ _ _ h (chunk_of content cs s) Hh)
    as (Hlen & Hun).
  split; [|split].
  - unfold len. rewrite length_app, Hlen. lia.
  - exact Hun.
  - apply drop_app_length'. symmetry. exact Hlen.
Qed.

(** The data loop over [n] sequences from [k] on, the file being read up to
    byte [k * cs]. *)
Lemma data_loop_spec :
  forall (n : nat) (k : Z),
    0 <= k -> k + Z.of_nat n <= total ->
    UDP_sender.data_loop (seqZ k (Z.of_nat n)) total cs
                         (drop (Z.to_nat (k * cs)) content)
    = (Ok tt, map (udp_frame_of content cs total) (seqZ k (Z.of_nat n))).
Proof.
  induction n as [|n IH]; intros k Hk Hn.
  - rewrite seqZ_nil by lia. reflexivity.
  - rewrite seqZ_cons by lia.
    replace (Z.pred (Z.of_nat (S n))) with (Z.of_nat n) by lia.
    cbn [UDP_sender.data_loop map]. unfold RUDP.file_read.
    destruct (Z.ltb_spec cs 0) as [|_]; [lia|].
    change (take (Z.to_nat cs) (drop (Z.to_nat (k * cs)) content))
      with (chunk_of content cs k).
    pose proof (chunk_of_length content cs k ltac:(lia) ltac:(lia)) as Hc.
    destruct (pack_III_is_Some k total (len (chunk_of content cs k))
                ltac:(lia) ltac:(lia) ltac:(lia)) as [h Hh].
    rewrite Hh, drop_drop.
    replace (Z.to_nat (k * cs) + Z.to_nat cs)%nat
      with (Z.to_nat (Z.succ k * cs)) by nia.
    rewrite IH by lia. unfold udp_frame_of at 2. rewrite Hh. reflexivity.
Qed.

End UDPFrames.

(** X16. What [UDP.send_file] puts on the wire for a file that is there.
    With [buffer_size = 12] the chunk size is zero and nothing is sent
    ([ZeroDivisionError], caught).  With [buffer_size < 12] the header and
    the end marker go out with no data frame between them.  Otherwise, the
    counts fitting 32 bits, the header announces the size of the file,
    [total_chunks = ceil(file_size / (buffer_size - 12))] and the chunk
    size, and is followed by one frame per sequence in ascending order and
    by the end marker; each frame is twelve header bytes, which declare the
    sequence, [total_chunks] and the length of the payload that follows
    (not the nominal chunk size), then that payload, and the payloads in
    order make up the file. *)
Theorem X16_udp_datagrams (fs : files) (name : string) (bs : Z)
    (content : bytes) :
  fs !! name = Some content ->
  let cs := bs - 12 in
  let total := ceil_div (len content) cs in
  let info := {| UDP.filename := UDP_sender.basename name;
                 UDP.filesize := len content;
                 UDP.total_chunks := total;
                 UDP.chunk_size := cs |} in
  (bs = 12 ->
   UDP_sender.send_file fs name bs
   = (UDP_sender.CAUGHT ZeroDivisionError, [])) /\
  (bs < 12 ->
   UDP_sender.send_file fs name bs
   = (UDP_sender.AWAITING_REPLY,
      [UDP_sender.FILE_INFO info; UDP_sender.DATA UDP.TRANSFER_END])) /\
  (12 < bs < 2 ^ 32 -> total < 2 ^ 32 ->
   UDP_sender.send_file fs name bs
   = (UDP_sender.AWAITING_REPLY,
      UDP_sender.FILE_INFO info
      :: map UDP_sender.DATA
             (map (udp_frame_of content cs total) (seqZ 0 total))
      ++ [UDP_sender.DATA UDP.TRANSFER_END]) /\
   (forall s, 0 <= s < total ->
      let d := udp_frame_of content cs total s in
      unpack_III (take 12 d) = Some (s, total, len (drop 12 d)) /\
      drop 12 d = chunk_of content cs s /\ 0 < len (drop 12 d) <= cs) /\
   concat (map (fun s => drop 12 (udp_frame_of content cs total s))
               (seqZ 0 total)) = content).
Proof.
  intros Hfs cs total info. unfold UDP_sender.send_file. rewrite Hfs.
  fold cs. fold total. fold info.
  split; [|split].
  - intros ->. reflexivity.
  - intros Hbs. destruct (Z.eqb_spec cs 0) as [|_]; [subst cs; lia|].
    pose proof (ceil_div_neg (len content) cs ltac:(unfold len; lia)
                  ltac:(subst cs; lia)) as Hneg.
    fold total in Hneg. rewrite seqZ_nil by lia. reflexivity.
  - intros Hbs Hfit. destruct (Z.eqb_spec cs 0) as [|_]; [subst cs; lia|].
    assert (0 < cs < 2 ^ 32) as Hcs by (subst cs; lia).
    destruct (ceil_div_pos (len content) cs ltac:(unfold len; lia)
                ltac:(lia)) as (Ht0 & _).
    fold total in Ht0.
    pose proof (data_loop_spec content cs total Hcs eq_refl Hfit
                  (Z.to_nat total) 0 ltac:(lia) ltac:(lia)) as Hloop.
    rewrite Z2Nat.id in Hloop by lia. simpl in Hloop.
    rewrite drop_0 in Hloop. rewrite Hloop.
    split; [reflexivity|]. split.
    + intros s Hs. cbv zeta.
      destruct (udp_frame_of_decode content cs total Hcs eq_refl Hfit s Hs)
        as (_ & Hun & Hdrop).
      rewrite Hdrop. split; [exact Hun|]. split; [reflexivity|].
      apply chunk_of_length; lia.
    + transitivity (concat (map (chunk_of content cs) (seqZ 0 total)));
        [|apply concat_chunks; lia].
      f_equal. apply map_ext_in. intros s Hs.
      apply list_elem_of_In, elem_of_seqZ in Hs.
      apply (udp_frame_of_decode content cs total Hcs eq_refl Hfit s).
      lia.
Qed.

Lemma X16_witness :
  UDP_sender.send_file ex_fs "x.bin" 12
  = (UDP_sender.CAUGHT ZeroDivisionError, []) /\
  snd (UDP_sender.send_file ex_fs "x.bin" 16)
  = UDP_sender.FILE_INFO
      {| UDP.filename := "x.bin"; UDP.filesize := 11;
         UDP.total_chunks := 3; UDP.chunk_size := 4 |}
    :: map UDP_sender.DATA (map (udp_frame_of ex_content 4 3) [0; 1; 2])
    ++ [UDP_sender.DATA UDP.TRANSFER_END].
Proof.
  destruct (X16_udp_datagrams ex_fs "x.bin" 12 ex_content eq_refl)
    as (H12 & _).
  destruct (X16_udp_datagrams ex_fs "x.bin" 16 ex_content eq_refl)
    as (_ & _ & H16).
  split; [apply H12; reflexivity|].
  destruct (H16 ltac:(lia) ltac:(vm_compute; reflexivity)) as (-> & _).
  reflexivity.
Defined.

(** ** Sender and Receiver of the UDP mirror together *)

Lemma stored_lookup (content : bytes) (cs : Z) (l : list Z) :
  forall (chunks : gmap Z bytes) (s : Z),
    stored content cs l chunks !! s =
    if decide (s ∈ l) then Some (chunk_of content cs s) else chunks !! s.
Proof.
  unfold stored. induction l as [|x l IH]; intros chunks s; cbn [foldl].
  - destruct (decide (s ∈ [])) as [Hin|_]; [inversion Hin|reflexivity].
  - rewrite IH.
    destruct (decide (s ∈ l)) as [Hin|Hout].
    + destruct (decide (s ∈ x :: l)) as [_|Hn]; [reflexivity|].
      exfalso. apply Hn. right. exact Hin.
    + destruct (decide (s = x)) as [->|Hne].
      * rewrite lookup_insert_eq.
        destruct (decide (x ∈ x :: l)) as [_|Hn]; [reflexivity|].
        exfalso. apply Hn. left.
      * rewrite lookup_insert_ne by congruence.
        destruct (decide (s ∈ x :: l)) as [Hin|_]; [|reflexivity].
        apply elem_of_cons in Hin as [?|?]; contradiction.
Qed.

(** The data loop of the Receiver on frames of the Sender, whichever and in
    whatever order, then the end marker: each payload is stored under its
    sequence, and the marker ends the loop. *)
Lemma receive_loop_frames (content : bytes) (cs total : Z)
    (rx : list rx_event) :
  0 < cs -> cs + 12 <= 65536 -> total = ceil_div (len content) cs ->
  total < 2 ^ 32 ->
  forall (l : list Z) (chunks : gmap Z bytes),
    Forall (fun s => 0 <= s < total) l ->
    UDP.receive_loop total chunks
      (map RxFrame (map (udp_frame_of content cs total) l)
       ++ RxFrame UDP.TRANSFER_END :: rx)
    = (Ok (stored content cs l chunks), rx).
Proof.
  intros Hcs Hmax Htotal Hfit.
  induction l as [|s l IH]; intros chunks Hall.
  - cbn [map app UDP.receive_loop]. reflexivity.
  - apply Forall_cons in Hall as [Hs Hall].
    cbn [map app UDP.receive_loop]. cbv zeta.
    destruct (udp_frame_of_decode content cs total ltac:(lia) Htotal Hfit
                s Hs) as (Hlen & Hun & Hdrop).
    pose proof (chunk_of_length content cs s Hcs ltac:(lia)) as Hc.
    set (d := udp_frame_of content cs total s) in *.
    assert (take (Z.to_nat 65536) d = d) as Hcut.
    { apply take_ge. unfold len in *. lia. }
    rewrite Hcut.
    destruct (bool_decide_reflect (d = UDP.TRANSFER_END)) as [Heq|_].
    { exfalso. rewrite Heq in Hlen.
      change (len UDP.TRANSFER_END) with 12 in Hlen. lia. }
    destruct (Z.ltb_spec (len d) 12) as [|_]; [lia|].
    rewrite Hun.
    destruct (Z.eqb_spec total 0) as [|_]; [lia|].
    unfold slice. change (Z.to_nat 12) with 12%nat. rewrite Hdrop.
    rewrite take_ge by (unfold len; lia).
    rewrite IH by exact Hall. reflexivity.
Qed.

(** X17. The Receiver of the UDP mirror on data frames of the Sender, any
    of them in any order and any number of times, followed by the end
    marker (buffer sizes between 13 and 65507, the largest UDP payload):
    the reception ends on the marker and replies; [received_packets] is the
    number of distinct sequences that arrived; [success] is true exactly
    when every sequence of [0, total_chunks) arrived at least once, and
    then the bytes written in sequence order are the file. *)
Theorem X17_udp_reception (content : bytes) (name : string) (bs : Z)
    (l : list Z) (rx : list rx_event) :
  let cs := bs - 12 in
  let total := ceil_div (len content) cs in
  let info := {| UDP.filename := name; UDP.filesize := len content;
                 UDP.total_chunks := total; UDP.chunk_size := cs |} in
  let arrived := map RxFrame (map (udp_frame_of content cs total) l)
                 ++ RxFrame UDP.TRANSFER_END :: rx in
  12 < bs <= 65507 -> total < 2 ^ 32 ->
  Forall (fun s => 0 <= s < total) l ->
  exists chunks r,
    UDP.receive_loop total ∅ arrived = (Ok chunks, rx) /\
    UDP.receive info arrived = (Ok r, rx) /\
    UDP.received_packets r = Z.of_nat (size (list_to_set l : gset Z)) /\
    (UDP.success r = true <-> forall s, 0 <= s < total -> s ∈ l) /\
    (UDP.success r = true -> udp_written total chunks = content).
Proof.
  intros cs total info arrived Hbs Hfit Hall.
  assert (0 < cs) as Hcs by (subst cs; lia).
  destruct (ceil_div_pos (len content) cs ltac:(unfold len; lia) Hcs)
    as (Ht0 & _). fold total in Ht0.
  pose proof (receive_loop_frames content cs total rx Hcs
                ltac:(subst cs; lia) eq_refl Hfit l ∅ Hall) as Hloop.
  fold arrived in Hloop.
  set (chunks := stored content cs l ∅) in *.
  assert (forall s, chunks !! s =
            if decide (s ∈ l) then Some (chunk_of content cs s) else None)
    as Hch.
  { intros s. unfold chunks. rewrite stored_lookup, lookup_empty.
    reflexivity. }
  assert (forall s, is_Some (chunks !! s) <-> s ∈ l) as Hkeys.
  { intros s. rewrite Hch. destruct (decide (s ∈ l)); split; intros H;
      eauto; try contradiction. destruct H; discriminate. }
  assert (size chunks = size (list_to_set l : gset Z)) as Hsize.
  { rewrite <- (size_dom (D := gset Z)). f_equal. apply set_eq. intros s.
    rewrite elem_of_dom, elem_of_list_to_set. apply Hkeys. }
  assert (UDP.success (UDP.make_response total chunks) = true
          <-> forall s, 0 <= s < total -> s ∈ l) as Hiff.
  { unfold UDP.make_response. cbn [UDP.success]. rewrite Z.eqb_eq. split.
    - intros Hloss s Hs. apply Hkeys.
      apply (keys_complete chunks total); [|lia|exact Hs].
      intros k Hk. apply Hkeys in Hk.
      rewrite Forall_forall in Hall. apply Hall. exact Hk.
    - intros Hcover. rewrite (size_keys_range chunks total); [lia|].
      intros s. rewrite Hkeys. split.
      + rewrite Forall_forall in Hall. apply Hall.
      + apply Hcover. }
  exists chunks, (UDP.make_response total chunks).
  split; [exact Hloop|]. split.
  { unfold UDP.receive. cbn [UDP.total_chunks info]. rewrite Hloop.
    reflexivity. }
  split.
  { unfold UDP.make_response. cbn [UDP.received_packets].
    rewrite Hsize. reflexivity. }
  split; [exact Hiff|].
  intros Hok. rewrite Hiff in Hok. unfold udp_written.
  transitivity (concat (map (chunk_of content cs) (seqZ 0 total)));
    [|apply concat_chunks; exact Hcs].
  f_equal. apply map_ext_in. intros s Hs.
  apply list_elem_of_In, elem_of_seqZ in Hs. rewrite Hch.
  destruct (decide (s ∈ l)) as [_|Hout]; [reflexivity|].
  exfalso. apply Hout, Hok. lia.
Qed.

Lemma X17_witness :
  exists chunks r,
    UDP.receive_loop 3 ∅
      (map RxFrame (map (udp_frame_of ex_content 4 3) [2; 0; 1; 0])
       ++ [RxFrame UDP.TRANSFER_END]) = (Ok chunks, []) /\
    UDP.success r = true /\ udp_written 3 chunks = ex_content.
Proof.
  destruct (X17_udp_reception ex_content "x.bin" 16 [2; 0; 1; 0] []
              ltac:(lia) ltac:(vm_compute; reflexivity))
    as (chunks & r & Hloop & _ & _ & Hiff & Hw).
  { repeat constructor; vm_compute; discriminate. }
  assert (UDP.success r = true) as Hok.
  { apply Hiff. change (ceil_div (len ex_content) (16 - 12)) with 3.
    intros s Hs.
    assert (s = 0 \/ s = 1 \/ s = 2) as Hcases by lia.
    destruct Hcases as [-> | [-> | ->]].
    - right. left.
    - right. right. left.
    - left. }
  exists chunks, r. split; [exact Hloop|]. split; [exact Hok|].
  exact (Hw Hok).
Defined.



(** ** main.py *)

(** X19. The [__main__] block in server mode calls [start_server] with the
    keyword [log_filename], which the classes RUDP and TCP do not declare:
    with [--protocol rudp] (the default) or [tcp] the call fails with
    [TypeError] before any socket is opened, and the only servers that
    [main] starts are those of UDP and QUIC.  An unknown protocol name is a
    [ValueError] in either mode. *)
Theorem X19_main_server_mode (arg_protocol : string) (arg_buffer_size : Z)
    (arg_is_client : bool) :
  Main.main "rudp" arg_buffer_size false = Main.TYPE_ERROR /\
  Main.main "tcp" arg_buffer_size false = Main.TYPE_ERROR /\
  Main.main "udp" arg_buffer_size false = Main.START_SERVER Main.P_UDP /\
  (forall p, Main.main arg_protocol arg_buffer_size false
             = Main.START_SERVER p -> p = Main.P_UDP \/ p = Main.P_QUIC) /\
  (arg_protocol ∉ ["rudp"; "tcp"; "udp"; "quic"]%string ->
   Main.main arg_protocol arg_buffer_size arg_is_client = Main.VALUE_ERROR).
Proof.
  split; [reflexivity|]. split; [reflexivity|]. split; [reflexivity|].
  unfold Main.main, Main.select. split.
  - intros p.
    destruct (String.eqb arg_protocol "rudp"); [discriminate|].
    destruct (String.eqb arg_protocol "tcp"); [discriminate|].
    destruct (String.eqb arg_protocol "udp"); [intros [= <-]; auto|].
    destruct (String.eqb arg_protocol "quic"); [intros [= <-]; auto|].
    discriminate.
  - intros Hout.
    destruct (String.eqb_spec arg_protocol "rudp") as [->|_].
    { exfalso. apply Hout. left. }
    destruct (String.eqb_spec arg_protocol "tcp") as [->|_].
    { exfalso. apply Hout. right. left. }
    destruct (String.eqb_spec arg_protocol "udp") as [->|_].
    { exfalso. apply Hout. do 2 right. left. }
    destruct (String.eqb_spec arg_protocol "quic") as [->|_].
    { exfalso. apply Hout. do 3 right. left. }
    reflexivity.
Qed.

Lemma X19_witness :
  Main.main "sctp" 1 true = Main.VALUE_ERROR.
Proof.
  destruct (X19_main_server_mode "sctp" 1 true) as (_ & _ & _ & _ & H).
  apply H. intros Hin.
  repeat (apply elem_of_cons in Hin as [Heq|Hin]; [discriminate|]).
  inversion Hin.
Defined.

(** X20. The [__main__] block in client mode with [--protocol rudp]: the
    buffer size handed to [send_file] is [1460 + (b - 1) * 1472] for the
    [--buffer_size] [b], so the chunk size [buffer_size - 8] is never zero.
    From [b = 1] on it is [1452 + (b - 1) * 1472] bytes; for [b <= 0] the
    buffer size is negative, the header cannot be packed, and [send_file]
    on a file that is there sends nothing. *)
Theorem X20_main_client_rudp (fs : files) (name : string) (content : bytes)
    (b : Z) (rx : list rx_event) :
  fs !! name = Some content ->
  exists bs,
    Main.main "rudp" b true = Main.SEND_FILE Main.P_RUDP bs /\
    bs - REDUNDANCY_SIZE <> 0 /\
    (1 <= b -> bs - REDUNDANCY_SIZE = 1452 + (b - 1) * 1472) /\
    (b <= 0 ->
     RUDP.sock (RUDP.send_file fs name bs rx) = [SockOpen; SockClose] /\
     RUDP.losses (RUDP.send_file fs name bs rx) = [] /\
     RUDP.state (RUDP.send_file fs name bs rx) = RUDP.RAISED struct_error).
Proof.
  intros Hfs. exists (1460 + (b - 1) * 1472).
  split; [reflexivity|]. unfold REDUNDANCY_SIZE.
  split; [lia|]. split; [lia|].
  intros Hb. unfold RUDP.send_file, RUDP.send_body. rewrite Hfs.
  unfold REDUNDANCY_SIZE.
  destruct (Z.eqb_spec (1460 + (b - 1) * 1472 - 8) 0) as [|_]; [lia|].
  unfold pack_II256s, pack_II, pack_u32.
  assert (is_u32 (1460 + (b - 1) * 1472) = false) as ->.
  { unfold is_u32. destruct (Z.leb_spec 0 (1460 + (b - 1) * 1472));
      [lia|reflexivity]. }
  simpl. auto.
Qed.

Lemma X20_witness :
  Main.main "rudp" 1 true = Main.SEND_FILE Main.P_RUDP 1460 /\
  RUDP.sock (RUDP.send_file ex_fs "x.bin" (-12) []) = [SockOpen; SockClose].
Proof.
  destruct (X20_main_client_rudp ex_fs "x.bin" ex_content 1 [] eq_refl)
    as (bs1 & Hmain1 & _).
  destruct (X20_main_client_rudp ex_fs "x.bin" ex_content 0 [] eq_refl)
    as (bs0 & Hmain0 & _ & _ & Hneg).
  injection Hmain0 as <-.
  split; [reflexivity|]. apply Hneg. lia.
Defined.

(** X21. The outer loop of [program] is never left: the statement that
    advances [interval] stands after the loop, so every pass finds
    [interval] at 0.0001, and makes the same 150 calls of [send_file], fifty
    for each of the buffer sizes 4096, 8192 and 16384. *)
Theorem X21_program_never_ends (rounds : nat) :
  Main.program rounds
  = (concat (replicate rounds (sweep Main.start_interval)), false).
Proof.
  unfold Main.program.
  induction rounds as [|rounds IH]; [reflexivity|].
  cbn [Main.interval_loop replicate concat].
  change (Qle_bool Main.start_interval Main.end_interval) with true.
  cbv iota.
  change (Main.coef_loop (Z.to_nat Main.end_buffer_size_coef)
            Main.start_buffer_size_coef Main.start_interval)
    with (Some (sweep Main.start_interval ++ [])).
  cbv iota. rewrite IH, app_nil_r. reflexivity.
Qed.

(** ** Counting what was sent and what was received *)





(** The counters of the inner loop: every pass adds one to
    [total_packets_received] and at most one key to the chunk map. *)
Lemma collect_counts (rx : list rx_event) :
  forall (t t' : RUDP.transfer) rx' sent,
    RUDP.collect t rx = (RUDP.Finished t', rx', sent) ->
    RUDP.total_chunks t' = RUDP.total_chunks t /\
    RUDP.total_packets_received t'
    = RUDP.total_packets_received t + (len rx - len rx') /\
    unique_packets t' - unique_packets t <= len rx - len rx' /\
    RUDP.total_chunks t' <= unique_packets t'.
Proof.
  unfold unique_packets.
  induction rx as [|[|d] rx IH]; intros t t' rx' sent;
    cbn [RUDP.collect];
    destruct (Z.ltb_spec (Z.of_nat (size (RUDP.chunks t)))
                         (RUDP.total_chunks t)) as [Hlt|Hge];
    try (intros ?; discriminate);
    try (intros [= <- <- <-]; repeat split; lia).
  destruct (RUDP.collecting_body t d) as [t1 sent1|e|e] eqn:Eb;
    try (intros ?; discriminate).
  destruct (RUDP.collect t1 rx) as [[r1 rx1] sent2] eqn:Ec.
  intros [= -> <- <-].
  apply collecting_body_inv in Eb
    as (seq_num & n & _ & Hch & Htot & _ & _ & Hrecv & _).
  destruct (IH _ _ _ _ Ec) as (Ht & Hr & Hu & Hfin).
  pose proof (collect_length _ _ _ _ _ Ec) as Hshort.
  assert (Z.of_nat (size (RUDP.chunks t1))
          <= Z.of_nat (size (RUDP.chunks t)) + 1) as Hone.
  { rewrite Hch, map_size_insert.
    destruct (RUDP.chunks t !! seq_num); unfold id; lia. }
  unfold len in *. cbn [length]. repeat split; lia.
Qed.

Lemma unpack_II_nonneg (d : bytes) (a b : Z) :
  unpack_II d = Some (a, b) -> 0 <= a /\ 0 <= b.
Proof.
  unfold unpack_II.
  destruct d as [|a0 [|a1 [|a2 [|a3 [|b0 [|b1 [|b2 [|b3 [|? ?]]]]]]]]];
    try discriminate.
  intros [= <- <-]. unfold be32.
  pose proof (Z_of_byte_range a0). pose proof (Z_of_byte_range a1).
  pose proof (Z_of_byte_range a2). pose proof (Z_of_byte_range a3).
  pose proof (Z_of_byte_range b0). pose proof (Z_of_byte_range b1).
  pose proof (Z_of_byte_range b2). pose proof (Z_of_byte_range b3).
  lia.
Qed.

(** X23. The counters that [start_server] logs once a reception is
    complete: [total_packets_received] is the number of datagrams that the
    inner loop took from the socket; the count of duplicates is never
    negative; and the count of lost packets,
    [total_packets_expected - unique_packets], is never positive, and is
    zero as soon as every sequence stored is one of the transfer. *)
Theorem X23_receiver_counters (d : bytes) (t t' : RUDP.transfer)
    (rx rx' : list rx_event) (sent : list bytes) :
  RUDP.listen d = RUDP.Accepted t ->
  RUDP.collect t rx = (RUDP.Finished t', rx', sent) ->
  RUDP.total_packets_received t' = len rx - len rx' /\
  0 <= duplicate_packets t' /\
  packet_loss_count t' <= 0 /\
  ((forall k, is_Some (RUDP.chunks t' !! k) ->
              0 <= k < RUDP.total_chunks t') ->
   packet_loss_count t' = 0).
Proof.
  intros Hl Hc. apply listen_Accepted in Hl as (Hun & Hempty & _ & Hzero).
  apply unpack_II_nonneg in Hun as [_ Hpos].
  apply collect_counts in Hc as (Ht & Hr & Hu & Hfin).
  unfold duplicate_packets, packet_loss_count, unique_packets in *.
  rewrite Hempty, map_size_empty in Hu. rewrite Hzero in Hr.
  split; [lia|]. split; [lia|]. split; [lia|].
  intros Hin.
  assert ((dom (RUDP.chunks t') : gset Z)
          ⊆ list_to_set (seqZ 0 (RUDP.total_chunks t'))) as Hsub.
  { intros k Hk. apply elem_of_dom in Hk.
    rewrite elem_of_list_to_set, elem_of_seqZ. specialize (Hin k Hk). lia. }
  apply subseteq_size in Hsub.
  rewrite size_dom, size_list_to_set in Hsub by apply NoDup_seqZ.
  rewrite length_seqZ in Hsub. lia.
Qed.

Lemma X23_witness :
  exists t',
    RUDP.collect ex_t0 ex_rx = (RUDP.Finished t', [], [[]]) /\
    RUDP.total_packets_received t' = 4 /\ duplicate_packets t' = 1 /\
    packet_loss_count t' = 0.
Proof.
  eexists. split; [vm_compute; reflexivity|].
  match goal with |- RUDP.total_packets_received ?x = _ /\ _ =>
    set (t' := x) end.
  destruct (X23_receiver_counters ex_hdr ex_t0 t' ex_rx [] [[]]
              eq_refl eq_refl) as (Hr & _ & _ & _).
  split; [exact Hr|]. split; reflexivity.
Defined.

(** ** A loss and its recovery *)




Section OneLoss.

Variables (content : bytes) (cs total j : Z).
Hypothesis Hcs : 0 < cs < 2 ^ 32.
Hypothesis Htotal : total <= 2 ^ 31.
Hypothesis Hj : 0 <= j < total.


End OneLoss.






